(** * System Resource Tax collector: a shallow embedding of [src/collect_data.py]

    The development follows the layout of the script: the external
    collaborators first (exceptions, floats, strings, the process metrics
    provider, pandas), then [SystemMonitor] method by method, then the
    sampling loop as a step machine on which signal delivery is interleaved,
    and finally the properties.

    Conventions.
    - A Python [float] is an IEEE binary64 value: [spec_float] with the
      operations of the standard library's [SpecFloat] at precision 53.
    - A Python [str] is a sequence of code points; the model covers the code
      points up to U+00FF, one per [ascii].
    - A call that may raise returns a [result]; [try]/[except] is a match
      on the exception class.
    - The provider (psutil, the clock) is an oracle: the [World] lists, for
      every tick, what each call of that tick answers. *)

From Stdlib Require Import ZArith List String Ascii Bool Arith Lia.
From Stdlib Require Import Floats.SpecFloat.
Import ListNotations.

Set Implicit Arguments.

(** ** Exceptions and fallible calls *)

(** The exception classes the script distinguishes, and those its library
    calls raise. [psutil.NoSuchProcess], [psutil.AccessDenied] and
    [psutil.ZombieProcess] are the per-process failures; [OSError] stands
    for a system-wide provider failure. *)
Inductive exn : Type :=
| NoSuchProcess
| AccessDenied
| ZombieProcess
| KeyboardInterrupt
| ValueError
| ZeroDivisionError
| OverflowError
| OSError.

Inductive result (A : Type) : Type :=
| Ok (a : A)
| Raise (e : exn).

Arguments Ok {A} a.
Arguments Raise {A} e.

Definition bind {A B : Type} (r : result A) (k : A -> result B) : result B :=
  match r with
  | Ok a => k a
  | Raise e => Raise e
  end.

Declare Scope result_scope.
Delimit Scope result_scope with result.
Notation "x <- r ;; k" := (bind r (fun x => k))
  (at level 61, r at next level, right associativity) : result_scope.
Notation "' p <- r ;; k" := (bind r (fun p => k))
  (at level 61, p pattern, r at next level, right associativity) : result_scope.
Open Scope result_scope.

(** The tuple of the two [except] clauses at lines 68 and 97. *)
Definition is_process_error (e : exn) : bool :=
  match e with
  | NoSuchProcess | AccessDenied | ZombieProcess => true
  | _ => false
  end.

Definition is_keyboard_interrupt (e : exn) : bool :=
  match e with
  | KeyboardInterrupt => true
  | _ => false
  end.

(** ** Floats *)

Definition float : Type := spec_float.

Definition prec : Z := 53.
Definition emax : Z := 1024.

Definition fadd : float -> float -> float := SFadd prec emax.
Definition fmul : float -> float -> float := SFmul prec emax.
Definition fleb : float -> float -> bool := SFleb.
Definition fltb : float -> float -> bool := SFltb.

(** [float(z)] for an integer inside the binary64 range. *)
Definition float_of_int (z : Z) : float := binary_normalize prec emax z 0 false.

(** The literal [0.0]. *)
Definition f0 : float := S754_zero false.
Definition f100 : float := float_of_int 100.
Definition fmax : float := SFmax_float prec emax.

Definition is_nan (x : float) : bool :=
  match x with
  | S754_nan => true
  | _ => false
  end.

Definition is_finite (x : float) : bool :=
  match x with
  | S754_zero _ | S754_finite _ _ _ => true
  | _ => false
  end.

(** [0.0 <= x]: false for a NaN and for every negative value, true for both
    zeros. *)
Definition is_nonneg (x : float) : bool := fleb f0 x.

(** [a / b] on two Python [int]s (true division): the quotient rounded
    once to the nearest binary64, [ZeroDivisionError] for a zero divisor and
    [OverflowError] when the quotient exceeds the float range. *)
Definition int_truediv (a b : Z) : result float :=
  if (b =? 0)%Z then Raise ZeroDivisionError
  else
    let negate := xorb (a <? 0)%Z (b <? 0)%Z in
    if (a =? 0)%Z then Ok (S754_zero negate)
    else
      let '(q, e, l) := SFdiv_core_binary prec emax (Z.abs a) 0 (Z.abs b) 0 in
      match binary_round_aux prec emax negate q e l with
      | S754_infinity _ => Raise OverflowError
      | x => Ok x
      end.

(** ** Strings *)

(** [chr.lower()] on the code points up to U+00FF: the ASCII capitals and
    the Latin-1 capitals U+00C0..U+00DE, the multiplication sign U+00D7
    apart, move up by 32. *)
Definition lower_char (c : ascii) : ascii :=
  let n := nat_of_ascii c in
  if ((65 <=? n) && (n <=? 90))%nat then ascii_of_nat (n + 32)
  else if ((192 <=? n) && (n <=? 222) && negb (n =? 215))%nat
       then ascii_of_nat (n + 32)
       else c.

(** [s.lower()]. *)
Fixpoint lower (s : string) : string :=
  match s with
  | EmptyString => EmptyString
  | String c t => String (lower_char c) (lower t)
  end.

(** [s.startswith(p)]. *)
Fixpoint startswith (p s : string) : bool :=
  match p, s with
  | EmptyString, _ => true
  | String _ _, EmptyString => false
  | String a p', String b s' => Ascii.eqb a b && startswith p' s'
  end.

(** [needle in hay] on two strings. *)
Fixpoint str_in (needle hay : string) : bool :=
  startswith needle hay ||
  match hay with
  | EmptyString => false
  | String _ t => str_in needle t
  end.

(** ** The process metrics provider (psutil, the clock) *)

(** [psutil.virtual_memory()]: the fields the script reads. *)
Record svmem : Type := { vm_total : Z; vm_percent : float }.

(** [psutil.net_io_counters()]. *)
Record snetio : Type := { bytes_sent : Z; bytes_recv : Z }.

(** A [psutil.Process] as one enumeration yields it, with the provider's
    answer to each read the script makes on it during the tick:
    [proc.info['name']] (line 65), [proc.cpu_percent(interval=None)]
    (line 91) and [proc.memory_info().rss] (line 92). *)
Record Process : Type := {
  proc_pid : Z;
  proc_info_name : result string;
  proc_cpu_percent : result float;
  proc_memory_info_rss : result Z
}.

(** What the provider answers during one tick. [virtual_memory] is answered
    once per tick (line 112 reads its [percent], line 93 its [total]);
    [process_iter] is called once per monitored application. *)
Record TickWorld : Type := {
  now : Z;
  cpu_percent : result float;
  virtual_memory : result svmem;
  net_io_counters : result snetio;
  process_iter_1 : result (list Process);
  process_iter_2 : result (list Process)
}.

(** The provider over a whole run: the priming call of [__init__] (line 43)
    and the answers of tick 0, 1, 2, ... *)
Record World : Type := {
  prime_cpu_percent : result float;
  tick_world : nat -> TickWorld
}.

(** [time.sleep(secs)]: returns after the delay for a non-negative length
    and raises for a negative one or a NaN. (The interpreter's upper limit
    on sleep lengths is not modelled.) *)
Definition time_sleep (secs : float) : result unit :=
  if fleb f0 secs then Ok tt else Raise ValueError.

(** ** Snapshots and the persisted table *)

(** The values a snapshot holds: a [datetime] (microseconds on the wall
    clock), a [float] or an [int]. *)
Inductive value : Type :=
| VTime (t : Z)
| VFloat (x : float)
| VInt (n : Z).

(** A Python [dict] with string keys, in insertion order. *)
Definition dict : Type := list (string * value).

Definition keys (d : dict) : list string := map fst d.
Definition values (d : dict) : list value := map snd d.

Fixpoint dict_get (k : string) (d : dict) : option value :=
  match d with
  | [] => None
  | (k', v) :: rest => if String.eqb k k' then Some v else dict_get k rest
  end.

(** The column names of the output, in the order of the dict literal at
    lines 124-134. *)
Definition COLUMNS : list string :=
  [ "timestamp"; "total_system_cpu_percent"; "total_system_memory_percent";
    "network_bytes_sent"; "network_bytes_recv";
    "app_A_cpu_percent"; "app_A_memory_percent";
    "app_B_cpu_percent"; "app_B_memory_percent" ]%string.

(** [pd.DataFrame(records)] on a list of dicts: the columns are the keys in
    the order they are first met, a row per dict, a missing key left as a
    hole. *)
Record DataFrame : Type := {
  df_columns : list string;
  df_rows : list (list (option value))
}.

Fixpoint unique_keys (seen : list string) (ks : list string) : list string :=
  match ks with
  | [] => seen
  | k :: rest =>
    if existsb (String.eqb k) seen then unique_keys seen rest
    else unique_keys (seen ++ [k]) rest
  end.

Definition DataFrame_of_records (records : list dict) : DataFrame :=
  let cols := unique_keys [] (List.concat (map keys records)) in
  {| df_columns := cols;
     df_rows := map (fun d => map (fun c => dict_get c d) cols) records |}.

(** The file [df.to_csv(path, index=False)] leaves: the header row, then the
    rows. Cells stay typed; rendering them as text is the CSV writer's. *)
Record csv_file : Type := {
  csv_header : list string;
  csv_rows : list (list (option value))
}.

Definition to_csv (df : DataFrame) : csv_file :=
  {| csv_header := df_columns df; csv_rows := df_rows df |}.

(** The files written so far, the latest first. *)
Definition FileSystem : Type := list (string * csv_file).

Definition write_file (path : string) (f : csv_file) (fs : FileSystem)
  : FileSystem := (path, f) :: fs.

Fixpoint read_file (path : string) (fs : FileSystem) : option csv_file :=
  match fs with
  | [] => None
  | (p, f) :: rest => if String.eqb path p then Some f else read_file path rest
  end.

(** ** [SystemMonitor] *)

Record SystemMonitor : Type := {
  foreground_app : string;
  background_app : string;
  interval : float;
  snapshots : list dict;
  running : bool
}.

(** The lines the script prints. *)
Inductive Msg : Type :=
| MsgShuttingDown
| MsgBanner (fg bg : string) (secs : float) (output_path : string)
| MsgProgress (count : nat) (system_cpu : option value)
| MsgSaving (count : nat) (output_path : string)
| MsgSaved
| MsgTotal (count : nat)
| MsgDuration (count : nat) (secs : float)
| MsgNoData.

(** [__init__] (lines 35-39): no argument is checked. The priming call of
    line 43 is made by [main] below. *)
Definition SystemMonitor_init (foreground background : string) (secs : float)
  : SystemMonitor :=
  {| foreground_app := lower foreground;
     background_app := lower background;
     interval := secs;
     snapshots := [];
     running := true |}.

(** [_find_processes_by_name], the loop of lines 63-69. *)
Fixpoint find_loop (app_name_lower : string) (procs matching : list Process)
  : result (list Process) :=
  match procs with
  | [] => Ok matching
  | proc :: rest =>
    match proc_info_name proc with
    | Ok name =>
      if str_in app_name_lower (lower name)
      then find_loop app_name_lower rest (matching ++ [proc])
      else find_loop app_name_lower rest matching
    | Raise e =>
      if is_process_error e then find_loop app_name_lower rest matching
      else Raise e
    end
  end.

Definition _find_processes_by_name (app_name : string)
  (process_iter : result (list Process)) : result (list Process) :=
  procs <- process_iter ;;
  find_loop (lower app_name) procs [].

(** The body of the [try] of lines 91-93 for one handle: the CPU percent and
    the memory percent it reads. *)
Definition read_process (vmem : result svmem) (proc : Process)
  : result (float * float) :=
  cpu <- proc_cpu_percent proc ;;
  rss <- proc_memory_info_rss proc ;;
  vm <- vmem ;;
  ratio <- int_truediv rss (vm_total vm) ;;
  Ok (cpu, fmul ratio f100).

(** [_aggregate_process_metrics], the loop of lines 89-98. *)
Fixpoint aggregate_loop (vmem : result svmem) (processes : list Process)
  (total_cpu total_memory : float) : result (float * float) :=
  match processes with
  | [] => Ok (total_cpu, total_memory)
  | proc :: rest =>
    match read_process vmem proc with
    | Ok (cpu, memory_percent) =>
      aggregate_loop vmem rest (fadd total_cpu cpu)
                     (fadd total_memory memory_percent)
    | Raise e =>
      if is_process_error e then aggregate_loop vmem rest total_cpu total_memory
      else Raise e
    end
  end.

Definition _aggregate_process_metrics (vmem : result svmem)
  (processes : list Process) : result (float * float) :=
  match processes with
  | [] => Ok (f0, f0)
  | _ => aggregate_loop vmem processes f0 f0
  end.

(** The dict literal of lines 124-134. *)
Definition make_snapshot (timestamp : Z) (total_system_cpu total_system_memory : float)
  (network_bytes_sent network_bytes_recv : Z)
  (app_A_cpu app_A_memory app_B_cpu app_B_memory : float) : dict :=
  [ ("timestamp", VTime timestamp);
    ("total_system_cpu_percent", VFloat total_system_cpu);
    ("total_system_memory_percent", VFloat total_system_memory);
    ("network_bytes_sent", VInt network_bytes_sent);
    ("network_bytes_recv", VInt network_bytes_recv);
    ("app_A_cpu_percent", VFloat app_A_cpu);
    ("app_A_memory_percent", VFloat app_A_memory);
    ("app_B_cpu_percent", VFloat app_B_cpu);
    ("app_B_memory_percent", VFloat app_B_memory) ]%string.

(** [_collect_snapshot] (lines 109-136). *)
Definition _collect_snapshot (self : SystemMonitor) (w : TickWorld)
  : result dict :=
  let timestamp := now w in
  total_system_cpu <- cpu_percent w ;;
  vm <- virtual_memory w ;;
  let total_system_memory := vm_percent vm in
  net_io <- net_io_counters w ;;
  foreground_procs <-
    _find_processes_by_name (foreground_app self) (process_iter_1 w) ;;
  '(app_A_cpu, app_A_memory) <-
    _aggregate_process_metrics (virtual_memory w) foreground_procs ;;
  background_procs <-
    _find_processes_by_name (background_app self) (process_iter_2 w) ;;
  '(app_B_cpu, app_B_memory) <-
    _aggregate_process_metrics (virtual_memory w) background_procs ;;
  Ok (make_snapshot timestamp total_system_cpu total_system_memory
        (bytes_sent net_io) (bytes_recv net_io)
        app_A_cpu app_A_memory app_B_cpu app_B_memory).

(** ** The sampling loop as a step machine

    [run] is cut at its statements so that a signal can be delivered between
    any two of them. Inside [_collect_snapshot] the program counter carries
    the locals assigned so far; nothing is appended before the dict literal
    of line 124 is evaluated. A call to [_find_processes_by_name] or
    [_aggregate_process_metrics] is one step: the handler writes only
    [self.running], which neither reads. *)

(** The system-wide readings of lines 109-116. *)
Record SystemReadings : Type := {
  timestamp : Z;
  total_system_cpu : float;
  total_system_memory : float;
  network_bytes_sent : Z;
  network_bytes_recv : Z
}.

(** Where [_collect_snapshot] stands: the line about to run, with the locals
    it has assigned. *)
Inductive CollectPc : Type :=
| L109
| L111 (ts : Z)
| L112 (ts : Z) (cpu : float)
| L114 (ts : Z) (cpu mem : float)
| L118 (sys : SystemReadings)
| L119 (sys : SystemReadings) (foreground_procs : list Process)
| L121 (sys : SystemReadings) (app_A : float * float)
| L122 (sys : SystemReadings) (app_A : float * float)
       (background_procs : list Process)
| L124 (sys : SystemReadings) (app_A app_B : float * float).

(** One statement of [_collect_snapshot]: the next position, or the dict it
    returns. *)
Definition collect_step (self : SystemMonitor) (w : TickWorld) (k : CollectPc)
  : result (CollectPc + dict) :=
  match k with
  | L109 => Ok (inl (L111 (now w)))
  | L111 ts => cpu <- cpu_percent w ;; Ok (inl (L112 ts cpu))
  | L112 ts cpu =>
    vm <- virtual_memory w ;; Ok (inl (L114 ts cpu (vm_percent vm)))
  | L114 ts cpu mem =>
    net_io <- net_io_counters w ;;
    Ok (inl (L118 {| timestamp := ts;
                     total_system_cpu := cpu;
                     total_system_memory := mem;
                     network_bytes_sent := bytes_sent net_io;
                     network_bytes_recv := bytes_recv net_io |}))
  | L118 sys =>
    procs <- _find_processes_by_name (foreground_app self) (process_iter_1 w) ;;
    Ok (inl (L119 sys procs))
  | L119 sys procs =>
    a <- _aggregate_process_metrics (virtual_memory w) procs ;;
    Ok (inl (L121 sys a))
  | L121 sys a =>
    procs <- _find_processes_by_name (background_app self) (process_iter_2 w) ;;
    Ok (inl (L122 sys a procs))
  | L122 sys a procs =>
    b <- _aggregate_process_metrics (virtual_memory w) procs ;;
    Ok (inl (L124 sys a b))
  | L124 sys a b =>
    Ok (inr (make_snapshot (timestamp sys) (total_system_cpu sys)
               (total_system_memory sys)
               (network_bytes_sent sys) (network_bytes_recv sys)
               (fst a) (snd a) (fst b) (snd b)))
  end.

(** Statements left in [_collect_snapshot] from a position. *)
Definition collect_rank (k : CollectPc) : nat :=
  match k with
  | L109 => 9 | L111 _ => 8 | L112 _ _ => 7 | L114 _ _ _ => 6
  | L118 _ => 5 | L119 _ _ => 4 | L121 _ _ => 3 | L122 _ _ _ => 2
  | L124 _ _ _ => 1
  end.

Fixpoint collect_run (fuel : nat) (self : SystemMonitor) (w : TickWorld)
  (k : CollectPc) : result dict :=
  match fuel with
  | O => Raise OSError
  | S fuel' =>
    match collect_step self w k with
    | Ok (inl k') => collect_run fuel' self w k'
    | Ok (inr snapshot) => Ok snapshot
    | Raise e => Raise e
    end
  end.

(** What the rest of [_collect_snapshot] returns from a position. *)
Definition collect_from (self : SystemMonitor) (w : TickWorld) (k : CollectPc)
  : result dict :=
  collect_run (collect_rank k) self w k.

(** Where [run] stands. *)
Inductive Pc : Type :=
| AtRunEntry
| AtLoopTop
| Collecting (k : CollectPc)
| AtAppend (snapshot : dict)
| AtProgress (snapshot : dict)
| AtSleep
| AtFlush
| Returned
| Propagated (e : exn).

(** The process: the monitor object, the position in [run], the number of
    loop iterations completed, the path given to [run], the files and the
    lines printed. *)
Record Machine : Type := {
  self : SystemMonitor;
  pc : Pc;
  tick : nat;
  output_path : string;
  fs : FileSystem;
  stdout : list Msg
}.

Definition set_pc (p : Pc) (m : Machine) : Machine :=
  {| self := self m; pc := p; tick := tick m; output_path := output_path m;
     fs := fs m; stdout := stdout m |}.

Definition set_self (s : SystemMonitor) (m : Machine) : Machine :=
  {| self := s; pc := pc m; tick := tick m; output_path := output_path m;
     fs := fs m; stdout := stdout m |}.

Definition set_tick (n : nat) (m : Machine) : Machine :=
  {| self := self m; pc := pc m; tick := n; output_path := output_path m;
     fs := fs m; stdout := stdout m |}.

Definition set_fs (f : FileSystem) (m : Machine) : Machine :=
  {| self := self m; pc := pc m; tick := tick m; output_path := output_path m;
     fs := f; stdout := stdout m |}.

Definition print (msg : Msg) (m : Machine) : Machine :=
  {| self := self m; pc := pc m; tick := tick m; output_path := output_path m;
     fs := fs m; stdout := stdout m ++ [msg] |}.

Definition set_running (b : bool) (s : SystemMonitor) : SystemMonitor :=
  {| foreground_app := foreground_app s; background_app := background_app s;
     interval := interval s; snapshots := snapshots s; running := b |}.

Definition append_snapshot (d : dict) (s : SystemMonitor) : SystemMonitor :=
  {| foreground_app := foreground_app s; background_app := background_app s;
     interval := interval s; snapshots := snapshots s ++ [d];
     running := running s |}.

(** [_signal_handler] (lines 47-48). *)
Definition _signal_handler (m : Machine) : Machine :=
  set_self (set_running false (self m)) (print MsgShuttingDown m).

(** An exception raised inside the [try] of lines 152-164: only
    [KeyboardInterrupt] is caught. *)
Definition unwind (e : exn) (m : Machine) : Machine :=
  if is_keyboard_interrupt e
  then set_pc AtFlush (set_self (set_running false (self m)) m)
  else set_pc (Propagated e) m.

(** Lines 166-174, the flush at the end of [run]. *)
Definition flush (m : Machine) : Machine :=
  match snapshots (self m) with
  | [] => print MsgNoData m
  | _ :: _ =>
    let count := List.length (snapshots (self m)) in
    let m1 := print (MsgSaving count (output_path m)) m in
    let df := DataFrame_of_records (snapshots (self m)) in
    let m2 := set_fs (write_file (output_path m) (to_csv df) (fs m1)) m1 in
    print (MsgDuration count (interval (self m)))
      (print (MsgTotal count) (print MsgSaved m2))
  end.

(** One statement of [run]. *)
Definition step (w : World) (m : Machine) : Machine :=
  match pc m with
  | AtRunEntry =>
    set_pc AtLoopTop
      (print (MsgBanner (foreground_app (self m)) (background_app (self m))
                (interval (self m)) (output_path m)) m)
  | AtLoopTop =>
    if running (self m) then set_pc (Collecting L109) m else set_pc AtFlush m
  | Collecting k =>
    match collect_step (self m) (tick_world w (tick m)) k with
    | Ok (inl k') => set_pc (Collecting k') m
    | Ok (inr snapshot) => set_pc (AtAppend snapshot) m
    | Raise e => unwind e m
    end
  | AtAppend snapshot =>
    set_pc (AtProgress snapshot) (set_self (append_snapshot snapshot (self m)) m)
  | AtProgress snapshot =>
    let count := List.length (snapshots (self m)) in
    if (count mod 10 =? 0)%nat
    then set_pc AtSleep
           (print (MsgProgress count
                     (dict_get "total_system_cpu_percent" snapshot)) m)
    else set_pc AtSleep m
  | AtSleep =>
    match time_sleep (interval (self m)) with
    | Ok _ => set_pc AtLoopTop (set_tick (S (tick m)) m)
    | Raise e => unwind e m
    end
  | AtFlush => set_pc Returned (flush m)
  | Returned => m
  | Propagated _ => m
  end.

(** The process has left [run]. *)
Definition terminated (m : Machine) : bool :=
  match pc m with
  | Returned | Propagated _ => true
  | _ => false
  end.

(** A signal (SIGINT or SIGTERM, lines 41-42) reaching the process. *)
Definition deliver_signal (m : Machine) : Machine :=
  if terminated m then m else _signal_handler m.

Inductive event : Type :=
| Step
| Signal.

Definition do_event (w : World) (m : Machine) (ev : event) : Machine :=
  match ev with
  | Step => step w m
  | Signal => deliver_signal m
  end.

(** A run: the statements executed, and the signals as they arrive. *)
Definition run_events (w : World) (evs : list event) (m : Machine) : Machine :=
  fold_left (do_event w) evs m.

(** The parsed command line (lines 192-217). *)
Record Args : Type := {
  app_foreground : string;
  app_background : string;
  output : string;
  arg_interval : float
}.

(** [main] up to the call of [run] (lines 219-225): the monitor is built,
    the CPU baseline primed, and [run] entered. *)
Definition main (args : Args) (w : World) (fs0 : FileSystem) : Machine :=
  let monitor :=
    SystemMonitor_init (app_foreground args) (app_background args)
                       (arg_interval args) in
  {| self := monitor;
     pc := match prime_cpu_percent w with
           | Ok _ => AtRunEntry
           | Raise e => Propagated e
           end;
     tick := 0;
     output_path := output args;
     fs := fs0;
     stdout := [] |}.

(** * Vocabulary of the properties *)

(** The name read of a handle either succeeds or fails with one of the
    per-process errors of line 68. *)
Definition enumerable_or_gone (p : Process) : Prop :=
  match proc_info_name p with
  | Ok _ => True
  | Raise e => is_process_error e = true
  end.

(** The test of line 66 on a handle whose name could be read. *)
Definition name_matches (app_name_lower : string) (p : Process) : bool :=
  match proc_info_name p with
  | Ok name => str_in app_name_lower (lower name)
  | Raise _ => false
  end.

(** A reading a binary64 provider can return for a percentage: a valid,
    finite float that is not negative. *)
Definition good_reading (x : float) : bool :=
  valid_binary prec emax x && is_finite x && is_nonneg x.

(** A percentage the loop can add without leaving the non-negative floats:
    finite and not negative. *)
Definition finite_nonneg (x : float) : bool := is_finite x && is_nonneg x.

(** What the provider returns for one handle during aggregation: a read
    fails with one of the per-process errors of line 97, or both succeed,
    with a valid, finite, non-negative CPU percent and a resident size that
    fits a machine word. *)
Definition reads_or_gone (p : Process) : Prop :=
  match proc_cpu_percent p, proc_memory_info_rss p with
  | Raise e, _ => is_process_error e = true
  | Ok _, Raise e => is_process_error e = true
  | Ok cpu, Ok rss => good_reading cpu = true /\ (0 <= rss < 2 ^ 64)%Z
  end.

(** Both reads of the handle succeed. *)
Definition survives (p : Process) : bool :=
  match proc_cpu_percent p, proc_memory_info_rss p with
  | Ok _, Ok _ => true
  | _, _ => false
  end.

(** The CPU percent a surviving handle reported. *)
Definition cpu_reading (p : Process) : float :=
  match proc_cpu_percent p with
  | Ok cpu => cpu
  | Raise _ => f0
  end.

(** The memory percent of a surviving handle: [(rss / total) * 100]. *)
Definition memory_reading (total : Z) (p : Process) : float :=
  match proc_memory_info_rss p with
  | Ok rss =>
    match int_truediv rss total with
    | Ok ratio => fmul ratio f100
    | Raise _ => f0
    end
  | Raise _ => f0
  end.

(** What the body of the [try] comes to for one handle: both percentages,
    finite and not negative, or one of the per-process errors of line 97. *)
Definition survives_or_gone (vmem : result svmem) (p : Process) : Prop :=
  match read_process vmem p with
  | Ok (cpu, mem) => finite_nonneg cpu = true /\ finite_nonneg mem = true
  | Raise e => is_process_error e = true
  end.

(** A zero or a finite float that is not negative, of magnitude at most
    [K] (below 2^K) and inside the binary64 exponent range. *)
Definition small_nonneg (K : Z) (x : float) : Prop :=
  match x with
  | S754_zero s => s = false
  | S754_finite s m e =>
    s = false /\ (Zdigits2 (Zpos m) + e <= K)%Z /\ (e <= emax - prec)%Z
  | _ => False
  end.

(** The pairs (CPU percent, memory percent) of the handles whose reads
    succeeded, in list order. *)
Definition surviving_readings (vmem : result svmem) (procs : list Process)
  : list (float * float) :=
  flat_map (fun p => match read_process vmem p with
                     | Ok r => [r]
                     | Raise _ => []
                     end) procs.

(** The float sum the loop computes: left to right from [0.0]. *)
Definition fsum (xs : list float) : float := fold_left fadd xs f0.

(** The name of a handle could be read. *)
Definition name_readable (p : Process) : bool :=
  match proc_info_name p with
  | Ok _ => true
  | Raise _ => false
  end.

(** The sign a float carries, a NaN having none. *)
Definition has_sign (s : bool) (x : float) : Prop :=
  match x with
  | S754_zero s' | S754_infinity s' | S754_finite s' _ _ => s' = s
  | S754_nan => False
  end.

(** ** Sample provider answers *)

Definition sample_svmem : svmem :=
  {| vm_total := 16000; vm_percent := float_of_int 40 |}.

Definition sample_vmem : result svmem := Ok sample_svmem.

(** A handle whose reads succeed. *)
Definition live (pid : Z) (name : string) (cpu rss : Z) : Process :=
  {| proc_pid := pid;
     proc_info_name := Ok name;
     proc_cpu_percent := Ok (float_of_int cpu);
     proc_memory_info_rss := Ok rss |}.

(** A handle that was enumerated and whose later reads fail with [e]. *)
Definition fails_on_read (pid : Z) (name : string) (e : exn) : Process :=
  {| proc_pid := pid;
     proc_info_name := Ok name;
     proc_cpu_percent := Raise e;
     proc_memory_info_rss := Raise e |}.

(** A handle whose CPU read succeeds and whose memory read fails. *)
Definition fails_on_memory (pid : Z) (name : string) (cpu : Z) (e : exn)
  : Process :=
  {| proc_pid := pid;
     proc_info_name := Ok name;
     proc_cpu_percent := Ok (float_of_int cpu);
     proc_memory_info_rss := Raise e |}.

(** A handle whose name cannot be read. *)
Definition unnamed (pid : Z) (e : exn) : Process :=
  {| proc_pid := pid;
     proc_info_name := Raise e;
     proc_cpu_percent := Raise e;
     proc_memory_info_rss := Raise e |}.

Definition sample_procs : list Process :=
  [ live 1 "Code Helper" 3 1000;
    live 2 "Spotify" 5 2000;
    unnamed 3 NoSuchProcess;
    live 4 "decode" 7 4000;
    unnamed 5 AccessDenied;
    live 6 "VSCODE" 1 500;
    fails_on_read 7 "code" ZombieProcess;
    fails_on_memory 8 "Code Helper (GPU)" 9 AccessDenied ]%string.

(** Two handles whose CPU readings are the largest finite binary64. *)
Definition saturated (pid : Z) : Process :=
  {| proc_pid := pid;
     proc_info_name := Ok "code"%string;
     proc_cpu_percent := Ok fmax;
     proc_memory_info_rss := Ok 1000%Z |}.

Definition saturated_procs : list Process := [saturated 1; saturated 2].

(** ** Runs *)

(** Tick [i] of the world lets [_collect_snapshot] return. *)
Definition tick_ok (mon : SystemMonitor) (w : World) (i : nat) : Prop :=
  exists d, _collect_snapshot mon (tick_world w i) = Ok d.

(** The snapshot tick [i] builds (the empty dict when the tick fails). *)
Definition snapshot_of (mon : SystemMonitor) (w : World) (i : nat) : dict :=
  match _collect_snapshot mon (tick_world w i) with
  | Ok d => d
  | Raise _ => []
  end.

(** The snapshots of ticks 0 .. n-1, in tick order. *)
Definition session (mon : SystemMonitor) (w : World) (n : nat) : list dict :=
  map (snapshot_of mon w) (seq 0 n).

Arguments session : simpl never.

(** Every buffered snapshot is the complete dict [_collect_snapshot]
    returned for the tick of its position. *)
Definition built_in_order (mon : SystemMonitor) (w : World) (snaps : list dict)
  : Prop :=
  forall i d, nth_error snaps i = Some d ->
              _collect_snapshot mon (tick_world w i) = Ok d.

(** The process is inside [run], before the flush. *)
Definition in_loop (m : Machine) : bool :=
  match pc m with
  | AtRunEntry | AtLoopTop | Collecting _ | AtAppend _ | AtProgress _
  | AtSleep => true
  | AtFlush | Returned | Propagated _ => false
  end.

(** The process is inside a loop iteration, between the check of line 153
    and the end of the sleep of line 161. *)
Definition in_tick (m : Machine) : bool :=
  match pc m with
  | Collecting _ | AtAppend _ | AtProgress _ | AtSleep => true
  | _ => false
  end.

(** Iterations completed when the flag is next checked at line 153. *)
Definition completed_after (m : Machine) : nat :=
  if in_tick m then S (tick m) else tick m.

Definition is_step (ev : event) : bool :=
  match ev with
  | Step => true
  | Signal => false
  end.

(** Statements executed in a run. *)
Definition count_steps (evs : list event) : nat :=
  List.length (filter is_step evs).

(** [n] statements, no signal. *)
Definition steps (w : World) (n : nat) (m : Machine) : Machine :=
  run_events w (repeat Step n) m.

(** Statements of one loop iteration: the check, the nine of
    [_collect_snapshot], the append, the progress report, the sleep. *)
Definition TICK_STEPS : nat := 13.

(** The row of a snapshot: its values, in key order, as captured. *)
Definition row_of (d : dict) : list (option value) := map Some (values d).

(** The file the flush writes for a session. *)
Definition persisted (snaps : list dict) : csv_file :=
  to_csv (DataFrame_of_records snaps).

(** The first cell of a row, when it is a timestamp. *)
Definition row_timestamp (row : list (option value)) : option Z :=
  match row with
  | Some (VTime t) :: _ => Some t
  | _ => None
  end.

(** The monitor [main] builds. *)
Definition monitor_of (args : Args) : SystemMonitor :=
  SystemMonitor_init (app_foreground args) (app_background args)
                     (arg_interval args).

(** What holds of the process at every point of every run. *)
Record run_invariant (args : Args) (w : World) (fs0 : FileSystem) (m : Machine)
  : Prop := {
  inv_foreground : foreground_app (self m) = lower (app_foreground args);
  inv_background : background_app (self m) = lower (app_background args);
  inv_interval : interval (self m) = arg_interval args;
  inv_path : output_path m = output args;
  inv_built : built_in_order (monitor_of args) w (snapshots (self m));
  inv_count :
    match pc m with
    | AtRunEntry => tick m = 0 /\ snapshots (self m) = []
    | AtLoopTop | Collecting _ | AtAppend _ =>
      List.length (snapshots (self m)) = tick m
    | AtProgress _ | AtSleep => List.length (snapshots (self m)) = S (tick m)
    | AtFlush | Returned | Propagated _ =>
      tick m <= List.length (snapshots (self m)) <= S (tick m)
    end;
  inv_pending :
    match pc m with
    | Collecting k =>
      collect_from (monitor_of args) (tick_world w (tick m)) k =
      _collect_snapshot (monitor_of args) (tick_world w (tick m))
    | AtAppend d =>
      _collect_snapshot (monitor_of args) (tick_world w (tick m)) = Ok d
    | _ => True
    end;
  inv_fs :
    match pc m with
    | Returned =>
      fs m = match snapshots (self m) with
             | [] => fs0
             | _ :: _ =>
               write_file (output args) (persisted (snapshots (self m))) fs0
             end
    | _ => fs m = fs0
    end
}.

(** The snapshot the iteration in progress is still to append. *)
Definition pending (mon : SystemMonitor) (w : World) (m : Machine) : list dict :=
  match pc m with
  | Collecting k =>
    match collect_from mon (tick_world w (tick m)) k with
    | Ok d => [d]
    | Raise _ => []
    end
  | AtAppend d => [d]
  | _ => []
  end.

(** Statements left before [run] returns once the flag is lowered. *)
Definition steps_to_return (m : Machine) : nat :=
  match pc m with
  | AtRunEntry => 3
  | AtLoopTop => 2
  | Collecting k => collect_rank k + 5
  | AtAppend _ => 5
  | AtProgress _ => 4
  | AtSleep => 3
  | AtFlush => 1
  | Returned | Propagated _ => 0
  end.

(** The flag is lowered and nothing stands in the way of the return: the
    reads of the iteration in progress succeed and its sleep returns. The
    run then ends with the session [snaps] after [n] iterations. *)
Record winding_down (mon : SystemMonitor) (w : World) (snaps : list dict)
       (n : nat) (m : Machine) : Prop := {
  wd_running : running (self m) = false;
  wd_foreground : foreground_app (self m) = foreground_app mon;
  wd_background : background_app (self m) = background_app mon;
  wd_sleep : in_tick m = true -> time_sleep (interval (self m)) = Ok tt;
  wd_snaps : snapshots (self m) ++ pending mon w m = snaps;
  wd_ticks : completed_after m = n;
  wd_reads :
    match pc m with
    | Collecting k =>
      exists d, collect_from mon (tick_world w (tick m)) k = Ok d
    | Propagated _ => False
    | _ => True
    end
}.

(** Timestamps never step back along the list. *)
Definition non_decreasing (ts : list Z) : Prop :=
  forall i j a b,
    i <= j -> nth_error ts i = Some a -> nth_error ts j = Some b -> (a <= b)%Z.

(** The timestamp column of a file. *)
Definition file_timestamps (f : csv_file) : list (option Z) :=
  map row_timestamp (csv_rows f).

(** The wall clock readings of ticks 0 .. n-1. *)
Definition clock (w : World) (n : nat) : list Z :=
  map (fun i => now (tick_world w i)) (seq 0 n).

(** ** Sample runs *)

(** A tick in which every system-wide read succeeds; the wall clock reads
    [t]. *)
Definition sample_tick (t : Z) : TickWorld :=
  {| now := t;
     cpu_percent := Ok (float_of_int 12);
     virtual_memory := sample_vmem;
     net_io_counters := Ok {| bytes_sent := 10; bytes_recv := 20 |};
     process_iter_1 := Ok sample_procs;
     process_iter_2 := Ok sample_procs |}.

(** A tick whose system-wide CPU read fails. *)
Definition failing_tick (t : Z) : TickWorld :=
  {| now := t;
     cpu_percent := Raise OSError;
     virtual_memory := sample_vmem;
     net_io_counters := Ok {| bytes_sent := 10; bytes_recv := 20 |};
     process_iter_1 := Ok sample_procs;
     process_iter_2 := Ok sample_procs |}.

(** Every tick succeeds, two seconds apart. *)
Definition sample_world : World :=
  {| prime_cpu_percent := Ok f0;
     tick_world := fun i => sample_tick (Z.of_nat i * 2000000) |}.

(** Ticks 1 to 4 succeed, the fifth meets a system-wide read failure. *)
Definition failing_world : World :=
  {| prime_cpu_percent := Ok f0;
     tick_world := fun i =>
       if (i <? 4)%nat then sample_tick (Z.of_nat i * 2000000)
       else failing_tick (Z.of_nat i * 2000000) |}.

(** Ticks 1 to 4 succeed, the fifth is cut short by [KeyboardInterrupt]. *)
Definition interrupted_world : World :=
  {| prime_cpu_percent := Ok f0;
     tick_world := fun i =>
       if (i <? 4)%nat then sample_tick (Z.of_nat i * 2000000)
       else {| now := Z.of_nat i * 2000000;
               cpu_percent := Raise KeyboardInterrupt;
               virtual_memory := sample_vmem;
               net_io_counters := Ok {| bytes_sent := 10; bytes_recv := 20 |};
               process_iter_1 := Ok sample_procs;
               process_iter_2 := Ok sample_procs |} |}.

(** The wall clock is set back one hour after the first tick. *)
Definition clock_set_back_world : World :=
  {| prime_cpu_percent := Ok f0;
     tick_world := fun i =>
       match i with
       | O => sample_tick 7200000000
       | S _ => sample_tick (3600000000 + Z.of_nat i * 2000000)
       end |}.

Definition sample_args (secs : float) : Args :=
  {| app_foreground := "Code";
     app_background := "Spotify";
     output := "data/baseline_log.csv";
     arg_interval := secs |}.

Definition f2 : float := float_of_int 2.

(** The process after two full iterations of a healthy run. *)
Definition after_two_ticks : Machine :=
  steps sample_world (1 + 2 * TICK_STEPS) (main (sample_args f2) sample_world []).

(** The process in the middle of the third iteration, line 119 reached. *)
Definition mid_third_tick : Machine :=
  steps sample_world (1 + 2 * TICK_STEPS + 6) (main (sample_args f2) sample_world []).

(** A run whose signal arrives before the first check of line 153. *)
Definition stopped_before_first_tick : list event :=
  [Signal; Step; Step; Step].

(** A process at the flush with nothing buffered. *)
Definition empty_at_flush : Machine :=
  {| self := set_running false (monitor_of (sample_args f2));
     pc := AtFlush;
     tick := 0;
     output_path := "data/baseline_log.csv";
     fs := [];
     stdout := [] |}.

(** The interval [-2.0]. *)
Definition f_minus2 : float := SFopp f2.


(** * Vocabulary of the further properties *)

(** Two processes that differ in the lines printed at most. *)
Definition same_outcome (m1 m2 : Machine) : Prop :=
  self m1 = self m2 /\ pc m1 = pc m2 /\ tick m1 = tick m2 /\
  output_path m1 = output_path m2 /\ fs m1 = fs m2.

(** Every tick of the world lets [_collect_snapshot] return. *)
Definition healthy (mon : SystemMonitor) (w : World) : Prop :=
  forall i, tick_ok mon w i.


(** A read of the handle fails during aggregation with one of the
    per-process errors of line 97, the CPU read first. *)
Definition gone (p : Process) : bool :=
  match proc_cpu_percent p with
  | Raise e => is_process_error e
  | Ok _ =>
    match proc_memory_info_rss p with
    | Raise e => is_process_error e
    | Ok _ => false
    end
  end.

(** A tick whose system-wide reads succeed and whose first enumeration
    yields [procs]. *)
Definition tick_enumerating (procs : list Process) : TickWorld :=
  {| now := 0;
     cpu_percent := Ok (float_of_int 12);
     virtual_memory := sample_vmem;
     net_io_counters := Ok {| bytes_sent := 10; bytes_recv := 20 |};
     process_iter_1 := Ok procs;
     process_iter_2 := Ok sample_procs |}.

Definition is_progress (msg : Msg) : bool :=
  match msg with
  | MsgProgress _ _ => true
  | _ => false
  end.

(** The progress lines printed so far, in print order. *)
Definition progress_lines (m : Machine) : list Msg :=
  filter is_progress (stdout m).

(** The progress lines due for a buffer that [n] snapshots precede: one for
    every snapshot whose rank in the session is a multiple of ten, with the
    system CPU that snapshot holds. *)
Fixpoint progress_from (n : nat) (snaps : list dict) : list Msg :=
  match snaps with
  | [] => []
  | d :: rest =>
    (if (S n mod 10 =? 0)%nat
     then [MsgProgress (S n) (dict_get "total_system_cpu_percent" d)]
     else []) ++ progress_from (S n) rest
  end.

Definition progress_due (snaps : list dict) : list Msg := progress_from 0 snaps.

(** The snapshots line 157 has been reached for: all of the buffer, the
    last one apart while line 157 is about to run for it. *)
Definition reported (m : Machine) : list dict :=
  match pc m with
  | AtProgress _ => removelast (snapshots (self m))
  | _ => snapshots (self m)
  end.

(** The row of the output file for the provider's answers of one tick. *)
Definition row_of_tick (tw : TickWorld) (cpu : float) (vm : svmem)
  (net : snetio) (a b : float * float) : list (option value) :=
  [Some (VTime (now tw)); Some (VFloat cpu); Some (VFloat (vm_percent vm));
   Some (VInt (bytes_sent net)); Some (VInt (bytes_recv net));
   Some (VFloat (fst a)); Some (VFloat (snd a));
   Some (VFloat (fst b)); Some (VFloat (snd b))].

(** What the progress lines printed are, at every point of a run. *)
Definition progress_invariant (m : Machine) : Prop :=
  progress_lines m = progress_due (reported m) /\
  match pc m with
  | AtProgress d => exists s', snapshots (self m) = s' ++ [d]
  | _ => True
  end.

(** What the provider returns for one handle when its CPU percent, if
    read, is below [2^K]: a read fails with one of the per-process errors
    of line 97, or both succeed, with a finite non-negative CPU percent
    below [2^K] and a resident size that fits a machine word. *)
Definition reads_bounded (K : Z) (p : Process) : Prop :=
  match proc_cpu_percent p, proc_memory_info_rss p with
  | Raise e, _ => is_process_error e = true
  | Ok _, Raise e => is_process_error e = true
  | Ok cpu, Ok rss => small_nonneg K cpu /\ (0 <= rss < 2 ^ 64)%Z
  end.

(** * Properties *)

(** ** Strings: [in] is the substring relation *)

Lemma startswith_spec (p s : string) :
  startswith p s = true <-> exists post, s = (p ++ post)%string.
Proof.
  revert s; induction p as [|a p IH]; intros s; simpl.
  - split; [intros _; now exists s | reflexivity].
  - destruct s as [|b s].
    + split; [discriminate | intros [post H]; discriminate].
    + rewrite andb_true_iff, Ascii.eqb_eq, IH. split.
      * intros [-> [post ->]]. now exists post.
      * intros [post H]. injection H as -> ->. split; [reflexivity|now exists post].
Qed.

Lemma str_in_spec (needle hay : string) :
  str_in needle hay = true <->
  exists pre post, hay = (pre ++ needle ++ post)%string.
Proof.
  induction hay as [|c hay IH]; simpl; rewrite orb_true_iff, startswith_spec.
  - split.
    + intros [[post H]|H]; [|discriminate]. now exists EmptyString, post.
    + intros [[|a pre] [post H]]; [left; now exists post | discriminate].
  - rewrite IH. split.
    + intros [[post H]|[pre [post H]]].
      * now exists EmptyString, post.
      * exists (String c pre), post. simpl. now rewrite H.
    + intros [[|a pre] [post H]].
      * left. now exists post.
      * right. simpl in H. injection H as _ ->. now exists pre, post.
Qed.

Lemma str_in_empty (hay : string) : str_in EmptyString hay = true.
Proof. destruct hay; reflexivity. Qed.

Lemma lower_char_idempotent (c : ascii) :
  lower_char (lower_char c) = lower_char c.
Proof.
  destruct c as [[] [] [] [] [] [] [] []]; reflexivity.
Qed.

Lemma lower_idempotent (s : string) : lower (lower s) = lower s.
Proof.
  induction s as [|c s IH]; simpl; [reflexivity|].
  now rewrite lower_char_idempotent, IH.
Qed.

(** ** The resolver *)



Lemma find_loop_filter (pat : string) (procs matching : list Process) :
  Forall enumerable_or_gone procs ->
  find_loop pat procs matching = Ok (matching ++ filter (name_matches pat) procs).
Proof.
  intros H; revert matching.
  induction H as [|p procs Hp _ IH]; intros matching; simpl.
  - now rewrite app_nil_r.
  - unfold enumerable_or_gone in Hp. unfold name_matches at 1.
    destruct (proc_info_name p) as [name|e].
    + destruct (str_in pat (lower name)).
      * rewrite IH, <- app_assoc. reflexivity.
      * apply IH.
    + rewrite Hp. apply IH.
Qed.

Lemma find_processes_filter (app_name : string) (procs : list Process) :
  Forall enumerable_or_gone procs ->
  _find_processes_by_name app_name (Ok procs) =
  Ok (filter (name_matches (lower app_name)) procs).
Proof.
  intros H. unfold _find_processes_by_name; simpl.
  now rewrite find_loop_filter.
Qed.

(** The selector [__init__] stored is already lowercased; lowering it
    again at line 61 changes nothing. *)
Lemma find_processes_monitor (args : Args) (process_iter : result (list Process)) :
  _find_processes_by_name (foreground_app (monitor_of args)) process_iter =
  _find_processes_by_name (app_foreground args) process_iter /\
  _find_processes_by_name (background_app (monitor_of args)) process_iter =
  _find_processes_by_name (app_background args) process_iter.
Proof.
  unfold _find_processes_by_name, monitor_of, SystemMonitor_init.
  cbn [foreground_app background_app]. now rewrite !lower_idempotent.
Qed.

(** A name read that fails with another exception is not swallowed. *)
Lemma find_loop_propagates (pat : string) (p : Process) (rest matching : list Process) (e : exn) :
  proc_info_name p = Raise e -> is_process_error e = false ->
  find_loop pat (p :: rest) matching = Raise e.
Proof. intros H He; simpl. now rewrite H, He. Qed.

(** C4. With every name read of the enumeration either succeeding or
    failing as a per-process error (exited, access denied, zombie),
    [_find_processes_by_name] raises nothing and returns, in enumeration
    order, exactly the handles whose name was read and whose lowercased
    name contains the lowercased pattern as a substring; a handle whose
    name read failed is left out. The pattern "code" so selects "Code
    Helper", "VSCODE", "code" and also "decode". *)
Theorem resolve_case_insensitive_substring :
  forall (pattern : string) (procs : list Process),
    Forall enumerable_or_gone procs ->
    exists found,
      _find_processes_by_name pattern (Ok procs) = Ok found /\
      found = filter (name_matches (lower pattern)) procs /\
      (forall p, In p found <->
                 In p procs /\
                 exists name pre post,
                   proc_info_name p = Ok name /\
                   lower name = (pre ++ lower pattern ++ post)%string) /\
      (forall p e, proc_info_name p = Raise e -> ~ In p found) /\
      (forall p name,
          In p procs -> proc_info_name p = Ok name ->
          In name ["Code Helper"; "VSCODE"; "code"; "decode"]%string ->
          name_matches (lower "code") p = true).
Proof.
  intros pattern procs H.
  exists (filter (name_matches (lower pattern)) procs).
  split; [now apply find_processes_filter|].
  split; [reflexivity|].
  split; [|split].
  - intros p. rewrite filter_In. unfold name_matches.
    split.
    + intros [Hin Hm]. split; [assumption|].
      destruct (proc_info_name p) as [name|e]; [|discriminate].
      apply str_in_spec in Hm. destruct Hm as [pre [post Hm]].
      now exists name, pre, post.
    + intros [Hin [name [pre [post [Hn Hm]]]]]. split; [assumption|].
      rewrite Hn. apply str_in_spec. now exists pre, post.
  - intros p e He Hin. apply filter_In in Hin. destruct Hin as [_ Hm].
    unfold name_matches in Hm. rewrite He in Hm. discriminate.
  - intros p name _ Hn Hname. unfold name_matches. rewrite Hn.
    simpl in Hname.
    destruct Hname as [<-|[<-|[<-|[<-|[]]]]]; reflexivity.
Qed.

Lemma resolve_case_insensitive_substring_witness :
  Forall enumerable_or_gone sample_procs /\
  exists found,
    _find_processes_by_name "Code" (Ok sample_procs) = Ok found /\
    found = filter (name_matches (lower "Code")) sample_procs /\
    (forall p, In p found <->
               In p sample_procs /\
               exists name pre post,
                 proc_info_name p = Ok name /\
                 lower name = (pre ++ lower "Code" ++ post)%string) /\
    (forall p e, proc_info_name p = Raise e -> ~ In p found) /\
    (forall p name,
        In p sample_procs -> proc_info_name p = Ok name ->
        In name ["Code Helper"; "VSCODE"; "code"; "decode"]%string ->
        name_matches (lower "code") p = true).
Proof.
  split.
  - repeat constructor.
  - apply (resolve_case_insensitive_substring "Code" (procs := sample_procs)).
    repeat constructor.
Defined.

(** ** Floats: signs through rounding *)

Lemma shr_1_nonneg (mrs : shr_record) :
  (0 <= shr_m mrs)%Z -> (0 <= shr_m (shr_1 mrs))%Z.
Proof.
  destruct mrs as [m r s]; simpl.
  destruct m as [|[p|p|]|p]; simpl; intros H; lia.
Qed.

Lemma iter_shr_1_nonneg (p : positive) (mrs : shr_record) :
  (0 <= shr_m mrs)%Z -> (0 <= shr_m (iter_pos shr_1 p mrs))%Z.
Proof.
  revert mrs; induction p as [p IH|p IH|]; intros mrs H; simpl.
  - apply IH, IH, shr_1_nonneg, H.
  - apply IH, IH, H.
  - apply shr_1_nonneg, H.
Qed.

Lemma shr_fexp_nonneg (m e : Z) (l : location) :
  (0 <= m)%Z -> (0 <= shr_m (fst (shr_fexp prec emax m e l)))%Z.
Proof.
  intros H. unfold shr_fexp, shr.
  assert (H0 : (0 <= shr_m (shr_record_of_loc m l))%Z)
    by (destruct l as [|[]]; exact H).
  destruct (fexp prec emax (Zdigits2 m + e) - e)%Z; simpl;
    [assumption | now apply iter_shr_1_nonneg | assumption].
Qed.

Lemma round_nearest_even_nonneg (m : Z) (l : location) :
  (0 <= m)%Z -> (0 <= round_nearest_even m l)%Z.
Proof.
  intros H. destruct l as [|[]]; simpl; try lia.
  destruct (Z.even m); lia.
Qed.

Lemma binary_round_aux_sign (s : bool) (m e : Z) (l : location) :
  (0 <= m)%Z -> has_sign s (binary_round_aux prec emax s m e l).
Proof.
  intros H. unfold binary_round_aux.
  pose proof (shr_fexp_nonneg e l H) as H1.
  destruct (shr_fexp prec emax m e l) as [mrs' e']. simpl in H1.
  pose proof (round_nearest_even_nonneg (loc_of_shr_record mrs') H1) as H2.
  pose proof (shr_fexp_nonneg e' loc_Exact H2) as H3.
  destruct (shr_fexp prec emax _ e' loc_Exact) as [mrs'' e'']. simpl in H3.
  destruct (shr_m mrs'') as [|q|q].
  - reflexivity.
  - destruct (e'' <=? emax - prec)%Z; reflexivity.
  - lia.
Qed.

Lemma binary_round_sign (s : bool) (m : positive) (e : Z) :
  has_sign s (binary_round prec emax s m e).
Proof.
  unfold binary_round.
  destruct (shl_align m e _) as [mz ez].
  apply binary_round_aux_sign. lia.
Qed.

Lemma is_nonneg_spec (x : float) :
  is_nonneg x = true <->
  match x with
  | S754_zero _ => True
  | S754_infinity s | S754_finite s _ _ => s = false
  | S754_nan => False
  end.
Proof.
  unfold is_nonneg, fleb, SFleb.
  destruct x as [s|[]| |[] m e]; simpl; intuition (auto; discriminate).
Qed.

Lemma has_sign_nonneg (x : float) : has_sign false x -> is_nonneg x = true.
Proof.
  intros H. apply is_nonneg_spec. destruct x; simpl in *; auto.
Qed.

(** Adding two floats that are not negative gives one that is not negative:
    neither a NaN nor a negative value, possibly [+inf]. *)
Lemma fadd_nonneg (x y : float) :
  is_nonneg x = true -> is_nonneg y = true -> is_nonneg (fadd x y) = true.
Proof.
  rewrite !is_nonneg_spec. intros Hx Hy.
  destruct x as [sx|sx| |sx mx ex]; try contradiction;
    destruct y as [sy|sy| |sy my ey]; try contradiction; subst;
    try (destruct sx; destruct sy; simpl; auto; fail);
    try (destruct sx; simpl; auto; fail);
    try (destruct sy; simpl; auto; fail);
    try (simpl; auto; fail).
  unfold fadd, SFadd, cond_Zopp.
  rewrite <- is_nonneg_spec. apply has_sign_nonneg.
  simpl Z.add. unfold binary_normalize.
  apply binary_round_sign.
Qed.

Lemma is_nonneg_finite_or_inf (x : float) :
  is_nonneg x = true -> is_finite x = true \/ x = S754_infinity false.
Proof.
  rewrite is_nonneg_spec.
  destruct x as [s|s| |s m e]; simpl; intros H; subst; auto; contradiction.
Qed.

Lemma finite_nonneg_nonneg (x : float) :
  finite_nonneg x = true -> is_nonneg x = true.
Proof.
  unfold finite_nonneg. rewrite andb_true_iff. tauto.
Qed.

Lemma good_reading_finite_nonneg (x : float) :
  good_reading x = true -> finite_nonneg x = true.
Proof.
  unfold good_reading, finite_nonneg. rewrite !andb_true_iff. tauto.
Qed.

(** ** Floats: magnitudes through rounding *)

Lemma digits2_pos_size (p : positive) : digits2_pos p = Pos.size p.
Proof. induction p; cbn; congruence. Qed.

Lemma Zdigits2_log2 (m : Z) : (0 < m)%Z -> Zdigits2 m = (Z.log2 m + 1)%Z.
Proof.
  destruct m as [|p|p]; try lia. intros _. cbn [Zdigits2].
  rewrite digits2_pos_size. destruct p; cbn; lia.
Qed.

Lemma Zdigits2_nonneg (m : Z) : (0 <= Zdigits2 m)%Z.
Proof. destruct m; cbn; lia. Qed.

Lemma Zdigits2_mono (a b : Z) :
  (0 <= a <= b)%Z -> (Zdigits2 a <= Zdigits2 b)%Z.
Proof.
  intros [Ha Hab]. destruct (Z.eq_dec a 0) as [->|Hne].
  - apply Zdigits2_nonneg.
  - rewrite !Zdigits2_log2 by lia.
    pose proof (Z.log2_le_mono a b Hab). lia.
Qed.

Lemma Zdigits2_succ (m : Z) :
  (0 <= m)%Z -> (Zdigits2 (m + 1) <= Zdigits2 m + 1)%Z.
Proof.
  intros H. destruct (Z.eq_dec m 0) as [->|Hne]; [cbn; lia|].
  rewrite !Zdigits2_log2 by lia.
  pose proof (Z.log2_succ_le m). unfold Z.succ in *. lia.
Qed.

Lemma Zdigits2_shiftl (a s : Z) :
  (0 < a)%Z -> (0 <= s)%Z -> Zdigits2 (Z.shiftl a s) = (Zdigits2 a + s)%Z.
Proof.
  intros Ha Hs.
  assert (0 < Z.shiftl a s)%Z.
  { rewrite Z.shiftl_mul_pow2 by assumption.
    apply Z.mul_pos_pos; [assumption|]. now apply Z.pow_pos_nonneg. }
  rewrite !Zdigits2_log2 by assumption.
  rewrite Z.log2_shiftl by assumption. lia.
Qed.

Lemma Zdigits2_mul (a b : Z) :
  (0 < a)%Z -> (0 < b)%Z -> (Zdigits2 (a * b) <= Zdigits2 a + Zdigits2 b)%Z.
Proof.
  intros Ha Hb.
  rewrite !Zdigits2_log2 by (try apply Z.mul_pos_pos; assumption).
  pose proof (Z.log2_mul_above a b). lia.
Qed.

Lemma Zdigits2_below_pow2 (a k : Z) :
  (0 <= a < 2 ^ k)%Z -> (0 <= k)%Z -> (Zdigits2 a <= k)%Z.
Proof.
  intros [Ha Hlt] Hk. destruct (Z.eq_dec a 0) as [->|Hne]; [cbn; lia|].
  rewrite Zdigits2_log2 by lia.
  assert (Z.log2 a < k)%Z by (apply Z.log2_lt_pow2; lia). lia.
Qed.

Lemma shr_1_digits (mrs : shr_record) :
  (0 <= shr_m mrs)%Z ->
  (0 <= shr_m (shr_1 mrs))%Z /\
  Zdigits2 (shr_m (shr_1 mrs)) = Z.max 0 (Zdigits2 (shr_m mrs) - 1).
Proof.
  destruct mrs as [m r s]; cbn [shr_m].
  destruct m as [|[p|p|]|p]; cbn [shr_1 shr_m Zdigits2 digits2_pos]; intros H;
    try lia; rewrite ?Pos2Z.inj_succ; lia.
Qed.

Lemma iter_shr_1_digits (p : positive) :
  forall mrs : shr_record,
    (0 <= shr_m mrs)%Z ->
    (0 <= shr_m (iter_pos shr_1 p mrs))%Z /\
    Zdigits2 (shr_m (iter_pos shr_1 p mrs))
    = Z.max 0 (Zdigits2 (shr_m mrs) - Zpos p).
Proof.
  induction p as [p IH|p IH|]; intros mrs H; cbn [iter_pos].
  - destruct (@shr_1_digits mrs H) as [H1 E1].
    destruct (IH _ H1) as [H2 E2]. destruct (IH _ H2) as [H3 E3].
    split; [assumption|]. rewrite E3, E2, E1. lia.
  - destruct (IH _ H) as [H2 E2]. destruct (IH _ H2) as [H3 E3].
    split; [assumption|]. rewrite E3, E2. lia.
  - apply (@shr_1_digits mrs H).
Qed.

(** One shift of [binary_round_aux]: the exponent it reaches and the
    magnitude it keeps. *)
Lemma shr_fexp_magnitude (m e : Z) (l : location) :
  (0 <= m)%Z ->
  (0 <= shr_m (fst (shr_fexp prec emax m e l)))%Z /\
  snd (shr_fexp prec emax m e l)
  = Z.max e (fexp prec emax (Zdigits2 m + e)) /\
  (Zdigits2 (shr_m (fst (shr_fexp prec emax m e l)))
   + snd (shr_fexp prec emax m e l)
   <= Z.max (Zdigits2 m + e) (snd (shr_fexp prec emax m e l)))%Z.
Proof.
  intros H. unfold shr_fexp, shr.
  assert (H0 : shr_m (shr_record_of_loc m l) = m) by (destruct l as [|[]]; reflexivity).
  destruct (fexp prec emax (Zdigits2 m + e) - e)%Z as [|p|p] eqn:En;
    cbn [fst snd].
  - rewrite H0. repeat split; lia.
  - destruct (@iter_shr_1_digits p (shr_record_of_loc m l)) as [H1 E1];
      [now rewrite H0|].
    rewrite H0 in E1. split; [assumption|]. split; [lia|]. rewrite E1. lia.
  - rewrite H0. repeat split; lia.
Qed.

Lemma round_nearest_even_digits (m : Z) (l : location) :
  (0 <= m)%Z ->
  (Zdigits2 (round_nearest_even m l) <= Zdigits2 m + 1)%Z.
Proof.
  intros H. pose proof (@Zdigits2_succ m H).
  destruct l as [|[]]; cbn; try lia. destruct (Z.even m); lia.
Qed.

(** Rounding a non-negative mantissa of magnitude at most [K], inside the
    binary64 range, gives a zero or a finite float of the given sign, of
    magnitude at most [K + 1]. *)
Lemma binary_round_aux_finite (s : bool) (m e : Z) (l : location) (K : Z) :
  (0 <= m)%Z -> (e <= emax - prec)%Z ->
  (Zdigits2 m + e <= K)%Z -> (-1074 <= K <= 1023)%Z ->
  match binary_round_aux prec emax s m e l with
  | S754_zero s' => s' = s
  | S754_finite s' m' e' =>
    s' = s /\ (Zdigits2 (Zpos m') + e' <= K + 1)%Z /\ (e' <= emax - prec)%Z
  | _ => False
  end.
Proof.
  intros Hm He HK Hrange. unfold binary_round_aux.
  destruct (@shr_fexp_magnitude m e l Hm) as (H1 & E1 & D1).
  destruct (shr_fexp prec emax m e l) as [mrs' e']. cbn [fst snd] in *.
  pose proof (@round_nearest_even_nonneg _ (loc_of_shr_record mrs') H1) as H2.
  pose proof (@round_nearest_even_digits _ (loc_of_shr_record mrs') H1) as D2.
  set (m1 := round_nearest_even (shr_m mrs') (loc_of_shr_record mrs')) in *.
  destruct (@shr_fexp_magnitude m1 e' loc_Exact H2) as (H3 & E3 & D3).
  destruct (shr_fexp prec emax m1 e' loc_Exact) as [mrs'' e'']. cbn [fst snd] in *.
  pose proof (Zdigits2_nonneg m) as Hd.
  unfold fexp, emin, prec, emax in *.
  destruct (shr_m mrs'') as [|q|q] eqn:Eq.
  - reflexivity.
  - assert (Hle : (e'' <= 1024 - 53)%Z) by lia.
    apply Z.leb_le in Hle. rewrite Hle.
    split; [reflexivity|]. split; [|lia].
    apply Z.leb_le in Hle. lia.
  - lia.
Qed.

Lemma small_nonneg_good (K : Z) (x : float) :
  small_nonneg K x -> is_finite x = true /\ is_nonneg x = true.
Proof.
  destruct x as [s|s| |s m e]; cbn; try contradiction.
  - intros ->. auto.
  - intros (-> & _ & _). auto.
Qed.

Lemma binary_round_aux_small (m e : Z) (l : location) (K : Z) :
  (0 <= m)%Z -> (e <= emax - prec)%Z ->
  (Zdigits2 m + e <= K)%Z -> (-1074 <= K <= 1023)%Z ->
  small_nonneg (K + 1) (binary_round_aux prec emax false m e l).
Proof.
  intros Hm He HK Hr.
  pose proof (@binary_round_aux_finite false m e l K Hm He HK Hr) as H.
  unfold small_nonneg.
  destruct (binary_round_aux prec emax false m e l); auto.
Qed.

(** The integer quotient [SFdiv_core_binary] hands to the rounding. *)
Lemma div_core_magnitude (a b : Z) :
  (0 < a)%Z -> (0 < b)%Z ->
  let '(q, e, l) := SFdiv_core_binary prec emax a 0 b 0 in
  (0 <= q)%Z /\ (e <= 0)%Z /\ (Zdigits2 q + e <= Zdigits2 a)%Z.
Proof.
  intros Ha Hb. unfold SFdiv_core_binary.
  set (e' := Z.min (fexp prec emax (Zdigits2 a + 0 - (Zdigits2 b + 0))) (0 - 0)).
  assert (He' : (e' <= 0)%Z) by (unfold e'; lia).
  set (m' := match (0 - 0 - e')%Z with
             | Z0 => a
             | Zpos _ => Z.shiftl a (0 - 0 - e')
             | Zneg _ => 0%Z
             end).
  assert (Hm' : (0 <= m')%Z /\ (Zdigits2 m' + e' <= Zdigits2 a)%Z).
  { unfold m'. destruct (0 - 0 - e')%Z as [|p|p] eqn:Es; try lia.
    rewrite <- Es. split.
    - apply Z.shiftl_nonneg. lia.
    - rewrite Zdigits2_shiftl by lia. lia. }
  destruct (Z.div_eucl m' b) as [q r] eqn:E.
  assert (Hq : q = (m' / b)%Z) by (unfold Z.div; now rewrite E).
  assert (Hq0 : (0 <= q)%Z) by (subst q; apply Z.div_pos; lia).
  assert (Hqm : (q <= m')%Z).
  { subst q. apply Z.div_le_upper_bound; [assumption|]. nia. }
  split; [assumption|]. split; [assumption|].
  pose proof (@Zdigits2_mono q m' (conj Hq0 Hqm)). lia.
Qed.

(** [rss / total] on the counters of a process: no exception, and a float
    that is finite and not negative. *)
Lemma int_truediv_small (a b : Z) :
  (0 <= a < 2 ^ 64)%Z -> (0 < b)%Z ->
  exists x, int_truediv a b = Ok x /\ small_nonneg 65 x.
Proof.
  intros [Ha Hlt] Hb. unfold int_truediv.
  destruct (Z.eqb_spec b 0) as [->|_]; [lia|].
  assert (Hsa : (a <? 0)%Z = false) by (apply Z.ltb_ge; lia).
  assert (Hsb : (b <? 0)%Z = false) by (apply Z.ltb_ge; lia).
  rewrite Hsa, Hsb. cbn [xorb].
  destruct (Z.eqb_spec a 0) as [->|Hne].
  - exists (S754_zero false). split; reflexivity.
  - rewrite !Z.abs_eq by lia.
    pose proof (@div_core_magnitude a b ltac:(lia) Hb) as Hcore.
    destruct (SFdiv_core_binary prec emax a 0 b 0) as [[q e] l].
    destruct Hcore as (Hq & He & Hd).
    assert (Hda : (Zdigits2 a <= 64)%Z)
      by (apply Zdigits2_below_pow2; lia).
    pose proof (@binary_round_aux_small q e l 64 Hq
                  ltac:(unfold emax, prec; lia) ltac:(lia) ltac:(lia)) as Hs.
    change (64 + 1)%Z with 65%Z in Hs.
    destruct (binary_round_aux prec emax false q e l) as [s|s| |s m' e'];
      cbn in Hs; try contradiction; eexists; split; try reflexivity; exact Hs.
Qed.

Lemma f100_value : f100 = S754_finite false 7036874417766400 (-46).
Proof. reflexivity. Qed.

(** Scaling such a quotient by [100] keeps it finite and not negative. *)
Lemma fmul_100_small (x : float) :
  small_nonneg 65 x -> small_nonneg 73 (fmul x f100).
Proof.
  rewrite f100_value. unfold fmul, SFmul.
  destruct x as [s|s| |s m e]; cbn [small_nonneg]; try contradiction.
  - intros ->. reflexivity.
  - intros (-> & Hd & He). cbn [xorb].
    apply (@binary_round_aux_small _ _ loc_Exact 72).
    + lia.
    + unfold emax, prec in *. lia.
    + pose proof (@Zdigits2_mul (Zpos m) (Zpos 7036874417766400)
                    ltac:(lia) ltac:(lia)) as Hmul.
      change (Zdigits2 (Zpos 7036874417766400)) with 53%Z in Hmul.
      change (Zpos (m * 7036874417766400)) with (Zpos m * Zpos 7036874417766400)%Z.
      lia.
    + lia.
Qed.

(** The memory percent of line 93 from the counters of a process. *)
Lemma memory_percent_finite (rss total : Z) :
  (0 <= rss < 2 ^ 64)%Z -> (0 < total)%Z ->
  exists mem,
    (ratio <- int_truediv rss total ;; Ok (fmul ratio f100)) = Ok mem /\
    is_finite mem = true /\ is_nonneg mem = true.
Proof.
  intros Hr Ht. destruct (@int_truediv_small rss total Hr Ht) as (x & Hx & Hs).
  rewrite Hx. cbn [bind]. eexists. split; [reflexivity|].
  exact (@small_nonneg_good _ _ (@fmul_100_small _ Hs)).
Qed.

(** ** The aggregator *)

Lemma aggregate_loop_sums (vmem : result svmem) (procs : list Process)
      (total_cpu total_memory : float) :
  Forall (survives_or_gone vmem) procs ->
  aggregate_loop vmem procs total_cpu total_memory =
  Ok (fold_left fadd (map fst (surviving_readings vmem procs)) total_cpu,
      fold_left fadd (map snd (surviving_readings vmem procs)) total_memory).
Proof.
  intros H; revert total_cpu total_memory.
  induction H as [|p procs Hp _ IH]; intros total_cpu total_memory.
  - reflexivity.
  - unfold survives_or_gone in Hp.
    cbn [aggregate_loop surviving_readings flat_map].
    destruct (read_process vmem p) as [[cpu mem]|e].
    + rewrite IH. reflexivity.
    + rewrite Hp, IH. reflexivity.
Qed.

Lemma surviving_readings_good (vmem : result svmem) (procs : list Process) :
  Forall (survives_or_gone vmem) procs ->
  Forall (fun r => finite_nonneg (fst r) = true /\ finite_nonneg (snd r) = true)
         (surviving_readings vmem procs).
Proof.
  induction 1 as [|p procs Hp _ IH]; [constructor|].
  unfold survives_or_gone in Hp. cbn [surviving_readings flat_map].
  destruct (read_process vmem p) as [[cpu mem]|e]; [|exact IH].
  constructor; [exact Hp | exact IH].
Qed.

Lemma fold_fadd_nonneg (xs : list float) (acc : float) :
  is_nonneg acc = true ->
  Forall (fun x => is_nonneg x = true) xs ->
  is_nonneg (fold_left fadd xs acc) = true.
Proof.
  intros Hacc H; revert acc Hacc.
  induction H as [|x xs Hx _ IH]; intros acc Hacc; simpl; [assumption|].
  apply IH, fadd_nonneg; assumption.
Qed.

Lemma fsum_nonneg (xs : list float) :
  Forall (fun x => finite_nonneg x = true) xs -> is_nonneg (fsum xs) = true.
Proof.
  intros H. apply fold_fadd_nonneg; [reflexivity|].
  eapply Forall_impl; [|exact H]. apply finite_nonneg_nonneg.
Qed.

Lemma is_nonneg_not_nan (x : float) : is_nonneg x = true -> is_nan x = false.
Proof. destruct x; simpl; auto; discriminate. Qed.

Lemma aggregate_sums (vmem : result svmem) (procs : list Process) :
  Forall (survives_or_gone vmem) procs ->
  _aggregate_process_metrics vmem procs =
  Ok (fsum (map fst (surviving_readings vmem procs)),
      fsum (map snd (surviving_readings vmem procs))).
Proof.
  intros H. destruct procs as [|p procs]; [reflexivity|].
  unfold _aggregate_process_metrics. now rewrite aggregate_loop_sums.
Qed.

(** From the provider's answers to the outcome of the [try] body: with a
    positive memory total, a handle whose reads are as [reads_or_gone] says
    either is skipped or contributes two finite, non-negative percentages. *)
Lemma reads_survive (vm : svmem) (p : Process) :
  (0 < vm_total vm)%Z -> reads_or_gone p -> survives_or_gone (Ok vm) p.
Proof.
  intros Ht. unfold reads_or_gone, survives_or_gone, read_process.
  destruct (proc_cpu_percent p) as [cpu|e]; cbn [bind]; [|auto].
  destruct (proc_memory_info_rss p) as [rss|e]; cbn [bind]; [|auto].
  intros [Hcpu Hrss].
  destruct (@memory_percent_finite rss (vm_total vm) Hrss Ht)
    as (mem & Hmem & Hfin & Hpos).
  unfold bind in Hmem.
  destruct (int_truediv rss (vm_total vm)) as [ratio|e]; [|discriminate].
  injection Hmem as <-.
  split; [now apply good_reading_finite_nonneg|].
  unfold finite_nonneg. now rewrite Hfin, Hpos.
Qed.

Lemma reads_survive_all (vm : svmem) (procs : list Process) :
  (0 < vm_total vm)%Z -> Forall reads_or_gone procs ->
  Forall (survives_or_gone (Ok vm)) procs.
Proof.
  intros Ht H. eapply Forall_impl; [|exact H].
  intros p. now apply (@reads_survive vm).
Qed.

(** The readings that are added are those of the handles both of whose
    reads succeeded, in list order. *)
Lemma surviving_readings_survivors (vm : svmem) (procs : list Process) :
  (0 < vm_total vm)%Z -> Forall reads_or_gone procs ->
  surviving_readings (Ok vm) procs =
  map (fun p => (cpu_reading p, memory_reading (vm_total vm) p))
      (filter survives procs).
Proof.
  intros Ht H. induction H as [|p procs Hp _ IH]; [reflexivity|].
  cbn [surviving_readings flat_map filter].
  change (flat_map _ procs) with (surviving_readings (Ok vm) procs).
  rewrite IH. clear IH.
  unfold reads_or_gone in Hp.
  destruct (proc_cpu_percent p) as [cpu|e] eqn:Ec.
  2:{ assert (Hs : survives p = false) by (unfold survives; now rewrite Ec).
      assert (Hr : read_process (Ok vm) p = Raise e)
        by (unfold read_process; now rewrite Ec).
      now rewrite Hs, Hr. }
  destruct (proc_memory_info_rss p) as [rss|e] eqn:Er.
  2:{ assert (Hs : survives p = false) by (unfold survives; now rewrite Ec, Er).
      assert (Hr : read_process (Ok vm) p = Raise e)
        by (unfold read_process; now rewrite Ec, Er).
      now rewrite Hs, Hr. }
  destruct Hp as [_ Hrss].
  destruct (@int_truediv_small rss (vm_total vm) Hrss Ht) as (x & Hx & _).
  assert (Hs : survives p = true) by (unfold survives; now rewrite Ec, Er).
  assert (Hr : read_process (Ok vm) p = Ok (cpu, fmul x f100))
    by (unfold read_process; rewrite Ec, Er; cbn [bind]; now rewrite Hx).
  assert (Hc : cpu_reading p = cpu) by (unfold cpu_reading; now rewrite Ec).
  assert (Hm : memory_reading (vm_total vm) p = fmul x f100)
    by (unfold memory_reading; now rewrite Er, Hx).
  rewrite Hs, Hr. cbn [map app]. now rewrite Hc, Hm.
Qed.

(** C5. On the empty list of handles, [_aggregate_process_metrics] returns
    exactly [(0.0, 0.0)], whatever the provider would have answered. *)
Theorem aggregate_empty :
  forall vmem : result svmem,
    _aggregate_process_metrics vmem [] = Ok (f0, f0).
Proof. intros vmem. reflexivity. Qed.

(** C3, as the code has it. Let the memory total be positive and let each
    read of each handle either fail with a per-process error (exited,
    access denied, zombie) or return a valid, finite, non-negative CPU
    percent, respectively a resident size below 2^64. Then
    [_aggregate_process_metrics] raises nothing and returns the binary64
    sums, in list order from [0.0], of the CPU percents and of the memory
    percents [(rss / total) * 100] of the handles both of whose reads
    succeeded, and of no other; each sum is >= 0 and no NaN, and it is
    finite unless the running sum left the binary64 range, when it is
    [+inf]. *)
Theorem aggregate_sums_survivors :
  forall (vm : svmem) (procs : list Process),
    (0 < vm_total vm)%Z ->
    Forall reads_or_gone procs ->
    exists total_cpu total_memory,
      _aggregate_process_metrics (Ok vm) procs = Ok (total_cpu, total_memory) /\
      total_cpu = fsum (map cpu_reading (filter survives procs)) /\
      total_memory
      = fsum (map (memory_reading (vm_total vm)) (filter survives procs)) /\
      is_nonneg total_cpu = true /\ is_nonneg total_memory = true /\
      is_nan total_cpu = false /\ is_nan total_memory = false /\
      (is_finite total_cpu = true \/ total_cpu = S754_infinity false) /\
      (is_finite total_memory = true \/ total_memory = S754_infinity false).
Proof.
  intros vm procs Ht Hreads.
  pose proof (@reads_survive_all vm procs Ht Hreads) as H.
  pose proof (surviving_readings_good H) as Hgood.
  assert (Hc : is_nonneg (fsum (map fst (surviving_readings (Ok vm) procs))) = true).
  { apply fsum_nonneg. rewrite Forall_map.
    eapply Forall_impl; [|exact Hgood]. now intros r [Hr _]. }
  assert (Hm : is_nonneg (fsum (map snd (surviving_readings (Ok vm) procs))) = true).
  { apply fsum_nonneg. rewrite Forall_map.
    eapply Forall_impl; [|exact Hgood]. now intros r [_ Hr]. }
  eexists _, _. split; [now apply aggregate_sums|].
  rewrite (@surviving_readings_survivors vm procs Ht Hreads) in *.
  rewrite !map_map in *. cbn [fst snd] in *.
  repeat split; auto using is_nonneg_not_nan, is_nonneg_finite_or_inf.
Qed.

Ltac solve_reads :=
  repeat (constructor;
          [cbv [reads_or_gone]; cbn; repeat split;
           first [reflexivity | lia] | ]);
  try constructor.

Lemma sample_procs_read : Forall reads_or_gone sample_procs.
Proof. unfold sample_procs. solve_reads. Qed.

Lemma aggregate_sums_survivors_witness :
  let vm := sample_svmem in
  ((0 < vm_total vm)%Z /\ Forall reads_or_gone sample_procs) /\
  exists total_cpu total_memory,
    _aggregate_process_metrics (Ok vm) sample_procs
    = Ok (total_cpu, total_memory) /\
    total_cpu = fsum (map cpu_reading (filter survives sample_procs)) /\
    total_memory
    = fsum (map (memory_reading (vm_total vm)) (filter survives sample_procs)) /\
    is_nonneg total_cpu = true /\ is_nonneg total_memory = true /\
    is_nan total_cpu = false /\ is_nan total_memory = false /\
    (is_finite total_cpu = true \/ total_cpu = S754_infinity false) /\
    (is_finite total_memory = true \/ total_memory = S754_infinity false).
Proof.
  intros vm.
  assert (Ht : (0 < vm_total vm)%Z) by reflexivity.
  split; [split; [exact Ht|exact sample_procs_read]|].
  exact (@aggregate_sums_survivors vm sample_procs Ht sample_procs_read).
Defined.

(** C3, as stated, fails: two surviving handles whose CPU readings are
    finite and non-negative (the largest binary64) add up to [+inf]. *)
Lemma aggregate_sum_not_finite :
  let vm := sample_svmem in
  (0 < vm_total vm)%Z /\
  Forall reads_or_gone saturated_procs /\
  map cpu_reading (filter survives saturated_procs) = [fmax; fmax] /\
  good_reading fmax = true /\
  exists total_cpu total_memory,
    _aggregate_process_metrics (Ok vm) saturated_procs
    = Ok (total_cpu, total_memory) /\
    total_cpu = S754_infinity false /\
    is_finite total_cpu = false.
Proof.
  intros vm.
  split; [reflexivity|].
  split; [unfold saturated_procs; solve_reads|].
  split; [reflexivity|]. split; [reflexivity|].
  eexists _, _. repeat split; reflexivity.
Qed.

(** ** The empty selector *)

Lemma name_matches_empty (p : Process) :
  name_matches EmptyString p = name_readable p.
Proof.
  unfold name_matches, name_readable.
  destruct (proc_info_name p); [apply str_in_empty|reflexivity].
Qed.

Lemma Forall_filter_keep {A : Type} (P : A -> Prop) (f : A -> bool) (l : list A) :
  Forall P l -> Forall P (filter f l).
Proof.
  rewrite !Forall_forall. intros H x Hx. apply filter_In in Hx. now apply H.
Qed.

(** C10. With the empty string as selector, [_find_processes_by_name]
    returns every enumerated handle whose name could be read, and
    [_aggregate_process_metrics] on its result sums the CPU and memory
    percents of all of them that survive the reads. *)
Theorem empty_selector_matches_all :
  forall (vm : svmem) (procs : list Process),
    (0 < vm_total vm)%Z ->
    Forall enumerable_or_gone procs ->
    Forall reads_or_gone procs ->
    _find_processes_by_name "" (Ok procs) = Ok (filter name_readable procs) /\
    (forall p name,
        In p procs -> proc_info_name p = Ok name ->
        In p (filter name_readable procs)) /\
    (found <- _find_processes_by_name "" (Ok procs) ;;
     _aggregate_process_metrics (Ok vm) found) =
    Ok (fsum (map cpu_reading
                  (filter survives (filter name_readable procs))),
        fsum (map (memory_reading (vm_total vm))
                  (filter survives (filter name_readable procs)))).
Proof.
  intros vm procs Ht He Hs.
  assert (Hf : _find_processes_by_name "" (Ok procs)
               = Ok (filter name_readable procs)).
  { rewrite find_processes_filter by assumption. simpl lower.
    f_equal. apply filter_ext. exact name_matches_empty. }
  split; [exact Hf|]. split.
  - intros p name Hin Hn. apply filter_In. split; [assumption|].
    unfold name_readable. now rewrite Hn.
  - rewrite Hf. simpl bind.
    pose proof (@Forall_filter_keep _ reads_or_gone name_readable procs Hs) as Hs'.
    rewrite aggregate_sums by now apply (@reads_survive_all vm).
    rewrite (@surviving_readings_survivors vm _ Ht Hs'), !map_map. reflexivity.
Qed.

Lemma empty_selector_matches_all_witness :
  let vm := sample_svmem in
  ((0 < vm_total vm)%Z /\
   Forall enumerable_or_gone sample_procs /\
   Forall reads_or_gone sample_procs) /\
  (_find_processes_by_name "" (Ok sample_procs)
   = Ok (filter name_readable sample_procs) /\
   (forall p name,
       In p sample_procs -> proc_info_name p = Ok name ->
       In p (filter name_readable sample_procs)) /\
   (found <- _find_processes_by_name "" (Ok sample_procs) ;;
    _aggregate_process_metrics (Ok vm) found) =
   Ok (fsum (map cpu_reading
                 (filter survives (filter name_readable sample_procs))),
       fsum (map (memory_reading (vm_total vm))
                 (filter survives (filter name_readable sample_procs))))) /\
  (found <- _find_processes_by_name "" (Ok sample_procs) ;;
   _aggregate_process_metrics (Ok vm) found)
  <> Ok (f0, f0).
Proof.
  intros vm.
  assert (Ht : (0 < vm_total vm)%Z) by reflexivity.
  assert (He : Forall enumerable_or_gone sample_procs) by repeat constructor.
  split; [repeat split; [exact He|exact sample_procs_read]|]. split.
  - exact (@empty_selector_matches_all vm sample_procs Ht He sample_procs_read).
  - intros H. vm_compute in H. discriminate H.
Defined.

(** ** [_collect_snapshot], statement by statement *)

Ltac destruct_read :=
  match goal with
  | |- context [match ?x with _ => _ end] => destruct x
  end.

Lemma collect_step_rank (mon : SystemMonitor) (w : TickWorld) (k k' : CollectPc) :
  collect_step mon w k = Ok (inl k') -> collect_rank k = S (collect_rank k').
Proof.
  destruct k; cbn [collect_step collect_rank]; unfold bind;
    try destruct_read; intros H; inversion H; reflexivity.
Qed.

Lemma collect_step_last (mon : SystemMonitor) (w : TickWorld) (k : CollectPc) (d : dict) :
  collect_step mon w k = Ok (inr d) -> collect_rank k = 1.
Proof.
  destruct k; cbn [collect_step collect_rank]; unfold bind;
    try destruct_read; intros H; inversion H; reflexivity.
Qed.

Lemma collect_rank_pos (k : CollectPc) : collect_rank k = S (pred (collect_rank k)).
Proof. destruct k; reflexivity. Qed.

Lemma collect_from_step (mon : SystemMonitor) (w : TickWorld) (k : CollectPc) :
  collect_from mon w k =
  match collect_step mon w k with
  | Ok (inl k') => collect_from mon w k'
  | Ok (inr d) => Ok d
  | Raise e => Raise e
  end.
Proof.
  unfold collect_from.
  destruct (collect_step mon w k) as [[k'|d]|e] eqn:E.
  - rewrite (collect_step_rank _ _ _ E). cbn [collect_run]. now rewrite E.
  - rewrite collect_rank_pos. cbn [collect_run]. now rewrite E.
  - rewrite collect_rank_pos. cbn [collect_run]. now rewrite E.
Qed.

(** Run statement by statement, [_collect_snapshot] returns what it returns
    as one call. *)
Lemma collect_from_start (mon : SystemMonitor) (w : TickWorld) :
  collect_from mon w L109 = _collect_snapshot mon w.
Proof.
  unfold _collect_snapshot.
  rewrite collect_from_step; cbn [collect_step bind].
  rewrite collect_from_step; cbn [collect_step bind].
  destruct (cpu_percent w); cbn [bind]; [|reflexivity].
  rewrite collect_from_step; cbn [collect_step bind].
  destruct (virtual_memory w) as [vm|] eqn:Evm; cbn [bind]; [|reflexivity].
  rewrite collect_from_step; cbn [collect_step bind].
  destruct (net_io_counters w); cbn [bind]; [|reflexivity].
  rewrite collect_from_step; cbn [collect_step bind].
  destruct (_find_processes_by_name (foreground_app mon) (process_iter_1 w));
    cbn [bind]; [|reflexivity].
  rewrite collect_from_step; cbn [collect_step bind]. rewrite Evm.
  destruct (_aggregate_process_metrics (Ok vm) _) as [[? ?]|];
    cbn [bind]; [|reflexivity].
  rewrite collect_from_step; cbn [collect_step bind].
  destruct (_find_processes_by_name (background_app mon) (process_iter_2 w));
    cbn [bind]; [|reflexivity].
  rewrite collect_from_step; cbn [collect_step bind]. rewrite Evm.
  destruct (_aggregate_process_metrics (Ok vm) _) as [[? ?]|];
    cbn [bind]; [|reflexivity].
  rewrite collect_from_step; cbn [collect_step bind].
  reflexivity.
Qed.

(** [_collect_snapshot] reads the two selectors of the monitor, nothing
    else. *)
Lemma collect_step_apps (s1 s2 : SystemMonitor) (w : TickWorld) (k : CollectPc) :
  foreground_app s1 = foreground_app s2 ->
  background_app s1 = background_app s2 ->
  collect_step s1 w k = collect_step s2 w k.
Proof.
  intros Hf Hb. destruct k; cbn [collect_step]; rewrite ?Hf, ?Hb; reflexivity.
Qed.

(** A snapshot is the dict literal over the nine columns, holding the
    timestamp of the tick and the readings as they were returned. *)
Lemma collect_snapshot_shape (mon : SystemMonitor) (w : TickWorld) (d : dict) :
  _collect_snapshot mon w = Ok d ->
  exists cpu vm net a b,
    cpu_percent w = Ok cpu /\ virtual_memory w = Ok vm /\
    net_io_counters w = Ok net /\
    d = make_snapshot (now w) cpu (vm_percent vm)
                      (bytes_sent net) (bytes_recv net)
                      (fst a) (snd a) (fst b) (snd b).
Proof.
  unfold _collect_snapshot, bind.
  destruct (cpu_percent w) as [cpu|]; [|discriminate].
  destruct (virtual_memory w) as [vm|]; [|discriminate].
  destruct (net_io_counters w) as [net|]; [|discriminate].
  destruct (_find_processes_by_name _ _); [|discriminate].
  destruct (_aggregate_process_metrics _ _) as [[a1 a2]|]; [|discriminate].
  destruct (_find_processes_by_name _ _); [|discriminate].
  destruct (_aggregate_process_metrics _ _) as [[b1 b2]|]; [|discriminate].
  intros H. injection H as <-.
  now exists cpu, vm, net, (a1, a2), (b1, b2).
Qed.

Lemma collect_snapshot_keys (mon : SystemMonitor) (w : TickWorld) (d : dict) :
  _collect_snapshot mon w = Ok d -> keys d = COLUMNS.
Proof.
  intros H. apply collect_snapshot_shape in H.
  destruct H as (cpu & vm & net & a & b & _ & _ & _ & ->). reflexivity.
Qed.

(** ** What holds at every point of every run *)

Lemma built_in_order_app (mon : SystemMonitor) (w : World) (snaps : list dict) (d : dict) :
  built_in_order mon w snaps ->
  _collect_snapshot mon (tick_world w (List.length snaps)) = Ok d ->
  built_in_order mon w (snaps ++ [d]).
Proof.
  intros Hb Hd i d' Hi.
  destruct (Nat.lt_ge_cases i (List.length snaps)) as [Hlt|Hge].
  - rewrite nth_error_app1 in Hi by assumption. now apply Hb.
  - rewrite nth_error_app2 in Hi by assumption.
    destruct (i - List.length snaps) as [|j] eqn:Hj.
    + assert (i = List.length snaps) by lia. subst i.
      simpl in Hi. injection Hi as <-. exact Hd.
    + destruct j; discriminate.
Qed.

Lemma built_in_order_session (mon : SystemMonitor) (w : World) (snaps : list dict) :
  built_in_order mon w snaps -> snaps = session mon w (List.length snaps).
Proof.
  intros Hb. unfold session.
  apply nth_error_ext. intros i.
  destruct (nth_error snaps i) as [d|] eqn:Hi.
  - pose proof (Hb i d Hi) as Hd.
    assert (Hlt : i < List.length snaps)
      by (apply nth_error_Some; congruence).
    rewrite nth_error_map, nth_error_seq.
    apply Nat.ltb_lt in Hlt. rewrite Hlt. simpl.
    unfold snapshot_of. now rewrite Hd.
  - apply nth_error_None in Hi. symmetry. apply nth_error_None.
    now rewrite length_map, length_seq.
Qed.

Lemma main_invariant (args : Args) (w : World) (fs0 : FileSystem) :
  run_invariant args w fs0 (main args w fs0).
Proof.
  constructor; cbn; try reflexivity.
  - intros [|i] d H; discriminate.
  - destruct (prime_cpu_percent w); cbn; auto.
  - destruct (prime_cpu_percent w); cbn; auto.
  - destruct (prime_cpu_percent w); cbn; auto.
Qed.

Lemma step_invariant (args : Args) (w : World) (fs0 : FileSystem) (m : Machine) :
  run_invariant args w fs0 m -> run_invariant args w fs0 (step w m).
Proof.
  intros [Hfg Hbg Hint Hpath Hbuilt Hcount Hpend Hfs].
  destruct m as [s p t path f out]. cbn in *. unfold step. cbn.
  destruct p as [| |k|d|d| | | |e]; cbn in *.
  - (* the banner *)
    destruct Hcount as [-> Hs]. constructor; cbn; auto. now rewrite Hs.
  - (* line 153 *)
    destruct (running s); constructor; cbn; auto; try lia.
    apply collect_from_start.
  - (* inside [_collect_snapshot] *)
    rewrite (collect_step_apps s (monitor_of args) _ k) by assumption.
    rewrite collect_from_step in Hpend.
    destruct (collect_step (monitor_of args) (tick_world w t) k) as [[k'|d]|e].
    + constructor; cbn; auto.
    + constructor; cbn; auto.
    + unfold unwind. destruct (is_keyboard_interrupt e);
        constructor; cbn; auto; lia.
  - (* line 155 *)
    constructor; cbn; auto.
    + apply built_in_order_app; [assumption|]. now rewrite Hcount.
    + rewrite length_app. simpl. lia.
  - (* line 157 *)
    destruct (_ =? 0)%nat; constructor; cbn; auto.
  - (* line 161 *)
    destruct (time_sleep (interval s)) as [[]|e].
    + constructor; cbn; auto.
    + unfold unwind. destruct (is_keyboard_interrupt e);
        constructor; cbn; auto; lia.
  - (* the flush *)
    unfold flush. cbn. destruct s as [fg bg secs snaps r]. cbn in *.
    destruct snaps as [|d snaps]; constructor; cbn; auto.
    rewrite Hpath, Hfs. reflexivity.
  - constructor; cbn; auto.
  - constructor; cbn; auto.
Qed.

Lemma signal_invariant (args : Args) (w : World) (fs0 : FileSystem) (m : Machine) :
  run_invariant args w fs0 m -> run_invariant args w fs0 (deliver_signal m).
Proof.
  intros H. unfold deliver_signal. destruct (terminated m) eqn:Ht; [assumption|].
  destruct H as [Hfg Hbg Hint Hpath Hbuilt Hcount Hpend Hfs].
  destruct m as [s p t path f out]. unfold terminated in Ht. cbn in *.
  constructor; cbn; auto.
Qed.

Lemma run_events_invariant (args : Args) (w : World) (fs0 : FileSystem)
      (evs : list event) (m : Machine) :
  run_invariant args w fs0 m -> run_invariant args w fs0 (run_events w evs m).
Proof.
  revert m. induction evs as [|ev evs IH]; intros m H; [exact H|].
  cbn. apply IH. destruct ev; [now apply step_invariant|now apply signal_invariant].
Qed.

(** Every state of every run of [main] satisfies the invariant. *)
Lemma reachable_invariant (args : Args) (w : World) (fs0 : FileSystem)
      (evs : list event) :
  run_invariant args w fs0 (run_events w evs (main args w fs0)).
Proof. apply run_events_invariant, main_invariant. Qed.

(** ** Winding down: from the lowered flag to the return *)

Lemma winding_step (mon : SystemMonitor) (w : World) (snaps : list dict)
      (n : nat) (m : Machine) :
  winding_down mon w snaps n m ->
  winding_down mon w snaps n (step w m) /\
  steps_to_return (step w m) = pred (steps_to_return m).
Proof.
  intros [Hrun Hfg Hbg Hsleep Hsnaps Hticks Hreads].
  destruct m as [s p t path f out].
  unfold completed_after, in_tick, pending, steps_to_return in *.
  cbn in *. unfold step. cbn.
  destruct p as [| |k|d|d| | | |e]; cbn in *.
  - split; [constructor; cbn; auto; discriminate|reflexivity].
  - rewrite Hrun. split; [constructor; cbn; auto; discriminate|reflexivity].
  - rewrite (collect_step_apps s mon _ k) by assumption.
    destruct Hreads as [d Hd]. rewrite Hd in Hsnaps.
    pose proof (collect_from_step mon (tick_world w t) k) as Hstep.
    rewrite Hd in Hstep.
    destruct (collect_step mon (tick_world w t) k) as [[k'|d']|e'] eqn:E.
    + split.
      * constructor; cbn; auto.
        -- unfold pending; cbn. now rewrite <- Hstep.
        -- now exists d.
      * unfold steps_to_return; cbn.
        rewrite (collect_step_rank _ _ _ E). reflexivity.
    + injection Hstep as ->. split.
      * constructor; cbn; auto.
      * unfold steps_to_return; cbn.
        rewrite (collect_step_last _ _ _ E). reflexivity.
    + discriminate.
  - split; [|reflexivity].
    constructor; cbn; auto. unfold pending; cbn.
    now rewrite app_nil_r.
  - destruct (_ =? 0)%nat; (split; [constructor; cbn; auto|reflexivity]).
  - rewrite (Hsleep eq_refl). split; [|reflexivity].
    constructor; cbn; auto; try discriminate.
  - split; [|reflexivity].
    unfold flush; cbn. destruct (snapshots s) eqn:Hs.
    + constructor; cbn; auto; try discriminate. now rewrite Hs.
    + constructor; cbn; auto; try discriminate. now rewrite Hs.
  - split; [constructor; cbn; auto|reflexivity].
  - contradiction.
Qed.

Lemma winding_signal (mon : SystemMonitor) (w : World) (snaps : list dict)
      (n : nat) (m : Machine) :
  winding_down mon w snaps n m ->
  winding_down mon w snaps n (deliver_signal m) /\
  steps_to_return (deliver_signal m) = steps_to_return m.
Proof.
  intros H. unfold deliver_signal.
  destruct (terminated m); [now split|].
  destruct H as [Hrun Hfg Hbg Hsleep Hsnaps Hticks Hreads].
  destruct m as [s p t path f out].
  split; [constructor; cbn in *; auto|reflexivity].
Qed.

Lemma winding_done (mon : SystemMonitor) (w : World) (snaps : list dict)
      (n : nat) (m : Machine) :
  winding_down mon w snaps n m -> steps_to_return m = 0 ->
  pc m = Returned /\ snapshots (self m) = snaps /\ tick m = n.
Proof.
  intros [Hrun Hfg Hbg Hsleep Hsnaps Hticks Hreads] H0.
  destruct m as [s p t path f out].
  unfold completed_after, in_tick, pending, steps_to_return in *. cbn in *.
  destruct p; try discriminate; try contradiction.
  - destruct k; discriminate.
  - rewrite app_nil_r in Hsnaps. auto.
Qed.

Lemma winding_run (mon : SystemMonitor) (w : World) (snaps : list dict)
      (n : nat) (evs : list event) (m : Machine) :
  winding_down mon w snaps n m ->
  steps_to_return m <= count_steps evs ->
  let m' := run_events w evs m in
  pc m' = Returned /\ snapshots (self m') = snaps /\ tick m' = n.
Proof.
  revert m. induction evs as [|ev evs IH]; intros m Hw Hle; cbn.
  - apply (winding_done Hw). cbn in Hle. lia.
  - destruct ev; cbn.
    + destruct (winding_step Hw) as [Hw' Hs]. apply IH; [assumption|].
      unfold count_steps in *. cbn in Hle. lia.
    + destruct (winding_signal Hw) as [Hw' Hs]. apply IH; [assumption|].
      unfold count_steps in *. cbn in Hle. lia.
Qed.

Lemma steps_to_return_bound (m : Machine) : steps_to_return m <= 14.
Proof.
  unfold steps_to_return. destruct (pc m); try lia. destruct k; cbn; lia.
Qed.

(** ** The persisted table *)

Lemma existsb_eqb_in (k : string) (seen : list string) :
  In k seen -> existsb (String.eqb k) seen = true.
Proof.
  intros H. apply existsb_exists. exists k. split; [assumption|].
  apply String.eqb_refl.
Qed.

Lemma unique_keys_seen (seen ks rest : list string) :
  (forall k, In k ks -> In k seen) ->
  unique_keys seen (ks ++ rest) = unique_keys seen rest.
Proof.
  induction ks as [|k ks IH]; intros H; [reflexivity|].
  cbn. rewrite existsb_eqb_in by (apply H; now left).
  apply IH. intros k' Hk'. apply H. now right.
Qed.

Lemma unique_keys_uniform (snaps : list dict) :
  Forall (fun d => keys d = COLUMNS) snaps ->
  unique_keys COLUMNS (List.concat (map keys snaps)) = COLUMNS.
Proof.
  induction 1 as [|d snaps Hd _ IH]; [reflexivity|].
  cbn [map List.concat]. rewrite Hd, unique_keys_seen; auto.
Qed.

Lemma columns_of_session (d : dict) (snaps : list dict) :
  Forall (fun d => keys d = COLUMNS) (d :: snaps) ->
  unique_keys [] (List.concat (map keys (d :: snaps))) = COLUMNS.
Proof.
  intros H. inversion H as [|? ? Hd Hs]; subst.
  cbn [map List.concat]. rewrite Hd.
  transitivity (unique_keys COLUMNS (List.concat (map keys snaps)));
    [reflexivity|now apply unique_keys_uniform].
Qed.

Lemma dict_get_rows (d : dict) :
  NoDup (keys d) ->
  map (fun c => dict_get c d) (keys d) = map Some (values d).
Proof.
  unfold keys, values.
  induction d as [|[k v] d IH]; intros H; [reflexivity|].
  cbn in *. inversion H as [|? ? Hk Hd]; subst.
  rewrite String.eqb_refl. f_equal.
  rewrite <- IH by assumption.
  apply map_ext_in. intros c Hc.
  destruct (String.eqb c k) eqn:E; [|reflexivity].
  apply String.eqb_eq in E. subst c. contradiction.
Qed.

Lemma COLUMNS_NoDup : NoDup COLUMNS.
Proof.
  unfold COLUMNS.
  repeat (constructor; [cbn; intuition discriminate|]). constructor.
Qed.

Lemma row_of_uniform (d : dict) :
  keys d = COLUMNS -> map (fun c => dict_get c d) COLUMNS = row_of d.
Proof.
  intros H. rewrite <- H. apply dict_get_rows. rewrite H. apply COLUMNS_NoDup.
Qed.

(** The file of a non-empty session of complete snapshots: the nine
    columns, and the row of each snapshot in session order. *)
Lemma persisted_uniform (snaps : list dict) :
  snaps <> [] ->
  Forall (fun d => keys d = COLUMNS) snaps ->
  persisted snaps = {| csv_header := COLUMNS; csv_rows := map row_of snaps |}.
Proof.
  intros Hne H. destruct snaps as [|d snaps]; [contradiction|].
  unfold persisted, to_csv, DataFrame_of_records.
  rewrite columns_of_session by assumption.
  cbn [df_columns df_rows]. f_equal.
  apply map_ext_in. intros d' Hd'. apply row_of_uniform.
  rewrite Forall_forall in H. now apply H.
Qed.

Lemma read_write_file (path : string) (f : csv_file) (files : FileSystem) :
  read_file path (write_file path f files) = Some f.
Proof. cbn. now rewrite String.eqb_refl. Qed.

Lemma flush_nonempty_fs (m : Machine) :
  snapshots (self m) <> [] ->
  fs (flush m) =
  write_file (output_path m) (persisted (snapshots (self m))) (fs m).
Proof.
  intros H. unfold flush. destruct (snapshots (self m)); [contradiction|].
  reflexivity.
Qed.

(** C8. For a non-empty session of snapshots built by [_collect_snapshot],
    the flush writes to the output path a file whose header is the nine
    column names in the fixed order, followed by exactly one row per
    snapshot in session order; the cells of a row are the values the
    snapshot captured (timestamp, system CPU and memory, network counters,
    the two applications' sums), unchanged and in column order. *)
Theorem flush_writes_session :
  forall m : Machine,
    snapshots (self m) <> [] ->
    Forall (fun d => exists mon tw, _collect_snapshot mon tw = Ok d)
           (snapshots (self m)) ->
    exists f,
      read_file (output_path m) (fs (flush m)) = Some f /\
      csv_header f = COLUMNS /\
      List.length (csv_rows f) = List.length (snapshots (self m)) /\
      csv_rows f = map row_of (snapshots (self m)) /\
      (forall i d,
          nth_error (snapshots (self m)) i = Some d ->
          exists ts cpu mem sent recv a_cpu a_mem b_cpu b_mem,
            d = make_snapshot ts cpu mem sent recv a_cpu a_mem b_cpu b_mem /\
            nth_error (csv_rows f) i =
            Some [Some (VTime ts); Some (VFloat cpu); Some (VFloat mem);
                  Some (VInt sent); Some (VInt recv);
                  Some (VFloat a_cpu); Some (VFloat a_mem);
                  Some (VFloat b_cpu); Some (VFloat b_mem)]).
Proof.
  intros m Hne Hall.
  assert (Hkeys : Forall (fun d => keys d = COLUMNS) (snapshots (self m))).
  { eapply Forall_impl; [|exact Hall].
    intros d (mon & tw & Hd). now apply collect_snapshot_keys in Hd. }
  exists (persisted (snapshots (self m))).
  rewrite flush_nonempty_fs by assumption.
  rewrite (persisted_uniform Hne Hkeys). cbn [csv_header csv_rows].
  split; [apply read_write_file|].
  split; [reflexivity|].
  split; [apply length_map|].
  split; [reflexivity|].
  intros i d Hi.
  rewrite Forall_forall in Hall.
  destruct (Hall d (nth_error_In _ _ Hi)) as (mon & tw & Hd).
  apply collect_snapshot_shape in Hd.
  destruct Hd as (cpu & vm & net & a & b & _ & _ & _ & ->).
  eexists _, _, _, _, _, _, _, _, _. split; [reflexivity|].
  rewrite nth_error_map, Hi. reflexivity.
Qed.

Lemma flush_writes_session_witness :
  (snapshots (self after_two_ticks) <> [] /\
   Forall (fun d => exists mon tw, _collect_snapshot mon tw = Ok d)
          (snapshots (self after_two_ticks))) /\
  exists f,
    read_file (output_path after_two_ticks) (fs (flush after_two_ticks))
    = Some f /\
    csv_header f = COLUMNS /\
    List.length (csv_rows f) = List.length (snapshots (self after_two_ticks)) /\
    csv_rows f = map row_of (snapshots (self after_two_ticks)) /\
    (forall i d,
        nth_error (snapshots (self after_two_ticks)) i = Some d ->
        exists ts cpu mem sent recv a_cpu a_mem b_cpu b_mem,
          d = make_snapshot ts cpu mem sent recv a_cpu a_mem b_cpu b_mem /\
          nth_error (csv_rows f) i =
          Some [Some (VTime ts); Some (VFloat cpu); Some (VFloat mem);
                Some (VInt sent); Some (VInt recv);
                Some (VFloat a_cpu); Some (VFloat a_mem);
                Some (VFloat b_cpu); Some (VFloat b_mem)]).
Proof.
  assert (H1 : snapshots (self after_two_ticks) <> [])
    by (vm_compute; discriminate).
  assert (H2 : Forall (fun d => exists mon tw, _collect_snapshot mon tw = Ok d)
                      (snapshots (self after_two_ticks))).
  { vm_compute snapshots.
    constructor;
      [exists (monitor_of (sample_args f2)), (sample_tick 0); reflexivity|].
    constructor;
      [exists (monitor_of (sample_args f2)), (sample_tick 2000000); reflexivity|].
    constructor. }
  split; [split; assumption|].
  exact (flush_writes_session after_two_ticks H1 H2).
Defined.

(** ** The flush of an empty session *)

Lemma flush_empty (m : Machine) :
  snapshots (self m) = [] -> flush m = print MsgNoData m.
Proof. intros H. unfold flush. now rewrite H. Qed.

Lemma iter_flush_empty (n : nat) (m : Machine) :
  snapshots (self m) = [] ->
  fs (Nat.iter n flush m) = fs m /\
  stdout (Nat.iter n flush m) = stdout m ++ repeat MsgNoData n /\
  snapshots (self (Nat.iter n flush m)) = [] /\
  pc (Nat.iter n flush m) = pc m.
Proof.
  intros H. induction n as [|n IH].
  - cbn. now rewrite app_nil_r.
  - destruct IH as (Hfs & Hout & Hs & Hpc).
    rewrite !Nat.iter_succ, (flush_empty _ Hs). cbn.
    rewrite Hout, <- app_assoc, <- repeat_cons. auto.
Qed.

(** C9. Flushing an empty session writes no file and prints the "no data"
    line, raising nothing: [run] then returns. Flushing it any number of
    times leaves the files as they were and prints that line each time. A
    run that returns with an empty session has written no file. *)
Theorem empty_flush_writes_nothing :
  (forall (m : Machine) (n : nat),
      snapshots (self m) = [] ->
      flush m = print MsgNoData m /\
      fs (Nat.iter n flush m) = fs m /\
      stdout (Nat.iter n flush m) = stdout m ++ repeat MsgNoData n /\
      snapshots (self (Nat.iter n flush m)) = [] /\
      (forall w, pc m = AtFlush ->
                 pc (step w m) = Returned /\ fs (step w m) = fs m)) /\
  (forall (args : Args) (w : World) (fs0 : FileSystem) (evs : list event),
      let m := run_events w evs (main args w fs0) in
      pc m = Returned ->
      snapshots (self m) = [] ->
      fs m = fs0).
Proof.
  split.
  - intros m n H.
    destruct (iter_flush_empty n m H) as (Hfs & Hout & Hs & _).
    split; [now apply flush_empty|].
    repeat (split; [assumption|]).
    intros w Hpc. unfold step. rewrite Hpc, (flush_empty _ H). now cbn.
  - intros args w fs0 evs m Hpc H.
    pose proof (reachable_invariant args w fs0 evs) as Hinv.
    pose proof (inv_fs Hinv) as Hf. fold m in Hf. rewrite Hpc, H in Hf.
    exact Hf.
Qed.

Lemma empty_flush_writes_nothing_witness :
  (snapshots (self empty_at_flush) = [] /\ pc empty_at_flush = AtFlush) /\
  (flush empty_at_flush = print MsgNoData empty_at_flush /\
   fs (Nat.iter 2 flush empty_at_flush) = fs empty_at_flush /\
   stdout (Nat.iter 2 flush empty_at_flush)
   = stdout empty_at_flush ++ repeat MsgNoData 2 /\
   snapshots (self (Nat.iter 2 flush empty_at_flush)) = [] /\
   pc (step sample_world empty_at_flush) = Returned /\
   fs (step sample_world empty_at_flush) = fs empty_at_flush) /\
  (let m := run_events sample_world stopped_before_first_tick
                       (main (sample_args f2) sample_world []) in
   (pc m = Returned /\ snapshots (self m) = []) /\ fs m = []).
Proof.
  destruct empty_flush_writes_nothing as [Hflush Hrun].
  split; [split; reflexivity|]. split.
  - destruct (Hflush empty_at_flush 2 eq_refl) as (H1 & H2 & H3 & H4 & H5).
    repeat (split; [assumption|]). exact (H5 sample_world eq_refl).
  - intros m.
    assert (Hpc : pc m = Returned) by (vm_compute; reflexivity).
    assert (Hs : snapshots (self m) = []) by (vm_compute; reflexivity).
    split; [split; assumption|].
    exact (Hrun (sample_args f2) sample_world [] stopped_before_first_tick
                Hpc Hs).
Defined.

(** ** Sessions *)

Lemma session_S (mon : SystemMonitor) (w : World) (n : nat) :
  session mon w (S n) = session mon w n ++ [snapshot_of mon w n].
Proof. unfold session. now rewrite seq_S, map_app. Qed.

Lemma session_length (mon : SystemMonitor) (w : World) (n : nat) :
  List.length (session mon w n) = n.
Proof. unfold session. now rewrite length_map, length_seq. Qed.

Lemma snapshot_of_ok (mon : SystemMonitor) (w : World) (i : nat) (d : dict) :
  _collect_snapshot mon (tick_world w i) = Ok d -> snapshot_of mon w i = d.
Proof. intros H. unfold snapshot_of. now rewrite H. Qed.

Lemma session_nth (mon : SystemMonitor) (w : World) (n i : nat) :
  i < n -> nth_error (session mon w n) i = Some (snapshot_of mon w i).
Proof.
  intros H. unfold session. rewrite nth_error_map, nth_error_seq.
  apply Nat.ltb_lt in H. now rewrite H.
Qed.

Lemma session_keys (mon : SystemMonitor) (w : World) (n : nat) :
  (forall i, i < n -> tick_ok mon w i) ->
  Forall (fun d => keys d = COLUMNS) (session mon w n).
Proof.
  intros H. unfold session. rewrite Forall_map, Forall_forall.
  intros i Hi. apply in_seq in Hi.
  destruct (H i) as [d Hd]; [lia|].
  rewrite (snapshot_of_ok _ _ _ Hd). now apply collect_snapshot_keys in Hd.
Qed.

Lemma session_timestamps (mon : SystemMonitor) (w : World) (n : nat) :
  (forall i, i < n -> tick_ok mon w i) ->
  map row_timestamp (map row_of (session mon w n)) = map Some (clock w n).
Proof.
  intros H. unfold session, clock. rewrite !map_map.
  apply map_ext_in. intros i Hi. apply in_seq in Hi.
  destruct (H i) as [d Hd]; [lia|].
  rewrite (snapshot_of_ok _ _ _ Hd).
  apply collect_snapshot_shape in Hd.
  destruct Hd as (cpu & vm & net & a & b & _ & _ & _ & ->). reflexivity.
Qed.

Lemma clock_nth (w : World) (n i : nat) (t : Z) :
  nth_error (clock w n) i = Some t -> i < n /\ t = now (tick_world w i).
Proof.
  unfold clock. rewrite nth_error_map, nth_error_seq.
  destruct (i <? n) eqn:E; cbn; [|discriminate].
  apply Nat.ltb_lt in E. intros H. injection H as <-. auto.
Qed.

Lemma clock_non_decreasing (w : World) (n : nat) :
  (forall i j, i <= j < n ->
               (now (tick_world w i) <= now (tick_world w j))%Z) ->
  non_decreasing (clock w n).
Proof.
  intros H i j a b Hij Ha Hb.
  apply clock_nth in Ha. apply clock_nth in Hb.
  destruct Ha as [_ ->]. destruct Hb as [Hj ->]. apply H. lia.
Qed.

(** ** A signal during the loop *)

Lemma signal_winds_down (args : Args) (w : World) (fs0 : FileSystem) (m : Machine) :
  run_invariant args w fs0 m ->
  in_loop m = true ->
  (in_tick m = true -> tick_ok (monitor_of args) w (tick m)) ->
  (in_tick m = true -> time_sleep (arg_interval args) = Ok tt) ->
  winding_down (monitor_of args) w
               (session (monitor_of args) w (completed_after m))
               (completed_after m) (deliver_signal m).
Proof.
  intros [Hfg Hbg Hint Hpath Hbuilt Hcount Hpend Hfs] Hloop Hok Hsleep.
  unfold deliver_signal, terminated.
  destruct m as [s p t path f out].
  unfold in_loop, in_tick, completed_after, tick_ok in *. cbn in *.
  pose proof (built_in_order_session Hbuilt) as Hsess.
  destruct p as [| |k|d|d| | | |e]; try discriminate; cbn in *;
    constructor; cbn; auto; try discriminate;
    try (now rewrite Hint; apply Hsleep); unfold pending; cbn.
  - destruct Hcount as [-> ->]. reflexivity.
  - rewrite app_nil_r. now rewrite <- Hcount.
  - destruct (Hok eq_refl) as [d Hd]. rewrite Hpend, Hd.
    rewrite session_S, (snapshot_of_ok _ _ _ Hd). subst t. now rewrite <- Hsess.
  - destruct (Hok eq_refl) as [d Hd]. rewrite Hpend. now exists d.
  - rewrite session_S, (snapshot_of_ok _ _ _ Hpend). subst t. now rewrite <- Hsess.
  - rewrite app_nil_r. now rewrite <- Hcount.
  - rewrite app_nil_r. now rewrite <- Hcount.
Qed.

Lemma run_events_app (w : World) (evs1 evs2 : list event) (m : Machine) :
  run_events w (evs1 ++ evs2) m = run_events w evs2 (run_events w evs1 m).
Proof. unfold run_events. apply fold_left_app. Qed.

Lemma step_ignores_flag (w : World) (m : Machine) :
  pc m <> AtLoopTop ->
  pc (step w (deliver_signal m)) = pc (step w m) /\
  snapshots (self (step w (deliver_signal m))) = snapshots (self (step w m)).
Proof.
  intros Hpc. unfold deliver_signal, terminated.
  destruct m as [s p t path f out]. cbn in *.
  destruct p as [| |k|d|d| | | |e]; try contradiction; unfold step; cbn; auto.
  - destruct (collect_step _ _ k) as [[k'|d]|e]; cbn; auto.
    unfold unwind. destruct (is_keyboard_interrupt e); cbn; auto.
  - destruct (_ =? 0)%nat; cbn; auto.
  - destruct (time_sleep _) as [[]|e]; cbn; auto.
    unfold unwind. destruct (is_keyboard_interrupt e); cbn; auto.
  - unfold flush; cbn. destruct (snapshots s); cbn; auto.
Qed.

Lemma returned_file (args : Args) (w : World) (fs0 : FileSystem) (m : Machine)
      (snaps : list dict) :
  run_invariant args w fs0 m ->
  pc m = Returned -> snapshots (self m) = snaps ->
  (snaps = [] -> fs m = fs0) /\
  (snaps <> [] ->
   fs m = write_file (output args) (persisted snaps) fs0 /\
   read_file (output args) (fs m) = Some (persisted snaps)).
Proof.
  intros Hinv Hpc Hs. pose proof (inv_fs Hinv) as Hf.
  rewrite Hpc, Hs in Hf. split.
  - intros ->. exact Hf.
  - intros Hne. destruct snaps; [contradiction|].
    rewrite Hf. split; [reflexivity|apply read_write_file].
Qed.

(** The run that is at [m] when a signal arrives, continued by [post]. *)
Lemma stopped_run (args : Args) (w : World) (fs0 : FileSystem)
      (pre post : list event) :
  let mon := monitor_of args in
  let m := run_events w pre (main args w fs0) in
  in_loop m = true ->
  (in_tick m = true -> tick_ok mon w (tick m)) ->
  (in_tick m = true -> time_sleep (arg_interval args) = Ok tt) ->
  steps_to_return m <= count_steps post ->
  let m' := run_events w post (deliver_signal m) in
  run_invariant args w fs0 m' /\
  pc m' = Returned /\ tick m' = completed_after m /\
  snapshots (self m') = session mon w (completed_after m).
Proof.
  intros mon m Hloop Hok Hsleep Hsteps m'.
  pose proof (reachable_invariant args w fs0 pre) as Hinv. fold m in Hinv.
  pose proof (signal_winds_down Hinv Hloop Hok Hsleep) as Hwd.
  destruct (winding_signal Hwd) as [_ Hsame].
  assert (Hrank : steps_to_return (deliver_signal m) = steps_to_return m).
  { unfold deliver_signal. destruct (terminated m); reflexivity. }
  destruct (winding_run post Hwd) as (Hpc & Hs & Ht); [lia|].
  split; [|auto].
  apply run_events_invariant, signal_invariant, Hinv.
Qed.

(** C7. At every point of every run: the handler writes [self.running]
    (and prints one line), nothing else; away from line 153 the next
    statement does the same whether or not the signal was delivered; every
    snapshot in the buffer is a complete dict returned by
    [_collect_snapshot] for the tick of its position; and a signal
    delivered inside an iteration whose reads succeed and whose sleep
    returns lets that iteration finish, its snapshot appended, before [run]
    leaves the loop at line 153, flushes and returns. *)
Theorem signal_only_lowers_flag :
  forall (args : Args) (w : World) (fs0 : FileSystem) (pre post : list event),
    let mon := monitor_of args in
    let m := run_events w pre (main args w fs0) in
    (self (_signal_handler m) = set_running false (self m) /\
     snapshots (self (_signal_handler m)) = snapshots (self m) /\
     pc (_signal_handler m) = pc m /\
     tick (_signal_handler m) = tick m /\
     fs (_signal_handler m) = fs m /\
     stdout (_signal_handler m) = stdout m ++ [MsgShuttingDown]) /\
    (pc m <> AtLoopTop ->
     pc (step w (deliver_signal m)) = pc (step w m) /\
     snapshots (self (step w (deliver_signal m)))
     = snapshots (self (step w m))) /\
    built_in_order mon w (snapshots (self m)) /\
    (in_tick m = true ->
     tick_ok mon w (tick m) ->
     time_sleep (arg_interval args) = Ok tt ->
     steps_to_return m <= count_steps post ->
     let m' := run_events w post (deliver_signal m) in
     pc m' = Returned /\
     tick m' = S (tick m) /\
     snapshots (self m') = session mon w (S (tick m)) /\
     nth_error (snapshots (self m')) (tick m)
     = Some (snapshot_of mon w (tick m)) /\
     read_file (output args) (fs m')
     = Some (persisted (session mon w (S (tick m))))).
Proof.
  intros args w fs0 pre post mon m.
  pose proof (reachable_invariant args w fs0 pre) as Hinv. fold m in Hinv.
  split; [repeat split|].
  split; [apply step_ignores_flag|].
  split; [exact (inv_built Hinv)|].
  intros Htick Hok Hsleep Hsteps m'.
  assert (Hloop : in_loop m = true).
  { unfold in_loop, in_tick in *. destruct (pc m); auto. }
  destruct (@stopped_run args w fs0 pre post Hloop (fun _ => Hok)
                         (fun _ => Hsleep) Hsteps)
    as (Hinv' & Hpc & Ht & Hs).
  fold m m' in Hinv', Hpc, Ht, Hs.
  unfold completed_after in Ht, Hs. rewrite Htick in Ht, Hs.
  repeat (split; [assumption|]).
  split.
  - rewrite Hs. apply session_nth. lia.
  - apply (returned_file Hinv' Hpc Hs).
    intros E. apply (f_equal (@List.length dict)) in E.
    rewrite session_length in E. discriminate.
Qed.

(** A tick succeeds when the system-wide reads succeed and the handles of
    both enumerations fail, if at all, with per-process errors. *)
Lemma collect_snapshot_ok (mon : SystemMonitor) (tw : TickWorld)
      (cpu : float) (vm : svmem) (net : snetio) (ps1 ps2 : list Process) :
  cpu_percent tw = Ok cpu ->
  virtual_memory tw = Ok vm ->
  net_io_counters tw = Ok net ->
  process_iter_1 tw = Ok ps1 ->
  process_iter_2 tw = Ok ps2 ->
  Forall enumerable_or_gone ps1 -> Forall (survives_or_gone (Ok vm)) ps1 ->
  Forall enumerable_or_gone ps2 -> Forall (survives_or_gone (Ok vm)) ps2 ->
  exists d, _collect_snapshot mon tw = Ok d.
Proof.
  intros Hc Hv Hn H1 H2 He1 Hs1 He2 Hs2.
  unfold _collect_snapshot. rewrite Hc, Hv, Hn, H1, H2. cbn [bind].
  rewrite !find_processes_filter by assumption. cbn [bind].
  rewrite !aggregate_sums by now apply Forall_filter_keep.
  cbn [bind]. eexists. reflexivity.
Qed.

Lemma sample_world_ok (args : Args) (i : nat) :
  tick_ok (monitor_of args) sample_world i.
Proof.
  unfold tick_ok.
  eapply collect_snapshot_ok; try reflexivity; repeat constructor.
Qed.

Lemma signal_only_lowers_flag_witness :
  let args := sample_args f2 in
  let w := sample_world in
  let pre := repeat Step (1 + 2 * TICK_STEPS + 6) in
  let post := repeat Step 14 in
  let mon := monitor_of args in
  let m := run_events w pre (main args w []) in
  (pc m <> AtLoopTop /\
   in_tick m = true /\ tick_ok mon w (tick m) /\
   time_sleep (arg_interval args) = Ok tt /\
   steps_to_return m <= count_steps post) /\
  (pc (step w (deliver_signal m)) = pc (step w m) /\
   snapshots (self (step w (deliver_signal m)))
   = snapshots (self (step w m))) /\
  let m' := run_events w post (deliver_signal m) in
  pc m' = Returned /\
  tick m' = S (tick m) /\
  snapshots (self m') = session mon w (S (tick m)) /\
  nth_error (snapshots (self m')) (tick m)
  = Some (snapshot_of mon w (tick m)) /\
  read_file (output args) (fs m')
  = Some (persisted (session mon w (S (tick m)))).
Proof.
  intros args w pre post mon m.
  assert (H1 : in_tick m = true) by (vm_compute; reflexivity).
  assert (H2 : tick_ok mon w (tick m)) by apply sample_world_ok.
  assert (H3 : time_sleep (arg_interval args) = Ok tt)
    by (vm_compute; reflexivity).
  assert (H4 : steps_to_return m <= count_steps post)
    by (apply Nat.leb_le; vm_compute; reflexivity).
  assert (H0 : pc m <> AtLoopTop) by (vm_compute; discriminate).
  split; [repeat split; assumption|].
  destruct (@signal_only_lowers_flag args w [] pre post)
    as (_ & Hflag & _ & Hfinish).
  split; [exact (Hflag H0)|].
  exact (Hfinish H1 H2 H3 H4).
Defined.

(** ** A run stopped by the signal *)

Lemma in_loop_count (args : Args) (w : World) (fs0 : FileSystem) (m : Machine) :
  run_invariant args w fs0 m ->
  tick m <= List.length (snapshots (self m)) <= S (tick m).
Proof.
  intros Hinv. pose proof (inv_count Hinv) as H.
  destruct (pc m); try lia. destruct H as [-> ->]. cbn. lia.
Qed.

(** C6, as the code has it. A run in which the signal arrives while [N]
    iterations are complete or under way, the reads of those iterations
    succeeding, returns after exactly [N] iterations: the session, empty at
    start and grown by one snapshot per iteration, holds the snapshots of
    ticks 1..N in tick order; for N > 0 the file holds the header and
    exactly those [N] rows in that order, and its timestamp column is the
    wall clock as read at each tick, so it is non-decreasing whenever the
    wall clock did not step back between ticks. *)
Theorem stopped_run_persists_each_tick :
  forall (args : Args) (w : World) (fs0 : FileSystem)
         (pre post : list event) (N : nat),
    let mon := monitor_of args in
    let m := run_events w pre (main args w fs0) in
    in_loop m = true ->
    completed_after m = N ->
    (forall i, i < N -> tick_ok mon w i) ->
    (0 < N -> time_sleep (arg_interval args) = Ok tt) ->
    14 <= count_steps post ->
    let m' := run_events w post (deliver_signal m) in
    snapshots (self (main args w fs0)) = [] /\
    tick m <= List.length (snapshots (self m)) <= S (tick m) /\
    pc m' = Returned /\
    tick m' = N /\
    snapshots (self m') = session mon w N /\
    List.length (snapshots (self m')) = N /\
    (forall i, i < N ->
               nth_error (snapshots (self m')) i = Some (snapshot_of mon w i) /\
               _collect_snapshot mon (tick_world w i) = Ok (snapshot_of mon w i)) /\
    (N = 0 -> fs m' = fs0) /\
    (0 < N ->
     exists f,
       read_file (output args) (fs m') = Some f /\
       csv_header f = COLUMNS /\
       csv_rows f = map row_of (session mon w N) /\
       List.length (csv_rows f) = N /\
       file_timestamps f = map Some (clock w N) /\
       ((forall i j, i <= j < N ->
                     (now (tick_world w i) <= now (tick_world w j))%Z) ->
        non_decreasing (clock w N))).
Proof.
  intros args w fs0 pre post N mon m Hloop HN Hok Hsleep Hsteps m'.
  subst mon.
  pose proof (reachable_invariant args w fs0 pre) as Hinv. fold m in Hinv.
  assert (Htick : in_tick m = true -> tick m < N /\ 0 < N).
  { intros Ht. unfold completed_after in HN. rewrite Ht in HN. lia. }
  destruct (@stopped_run args w fs0 pre post Hloop) as (Hinv' & Hpc & Ht & Hs).
  { intros Hin. apply Hok. now apply Htick. }
  { intros Hin. apply Hsleep. now apply Htick. }
  { pose proof (steps_to_return_bound m). fold m. lia. }
  fold m m' in Hinv', Hpc, Ht, Hs. rewrite HN in Ht, Hs.
  split; [reflexivity|].
  split; [exact (in_loop_count Hinv)|].
  repeat (split; [assumption|]).
  split; [rewrite Hs; apply session_length|].
  split.
  { intros i Hi. rewrite Hs. split; [now apply session_nth|].
    destruct (Hok i Hi) as [d Hd]. now rewrite (snapshot_of_ok _ _ _ Hd). }
  destruct (returned_file Hinv' Hpc Hs) as [Hempty Hfile].
  split.
  { intros ->. now apply Hempty. }
  intros Hpos.
  assert (Hne : session (monitor_of args) w N <> []).
  { intros E. apply (f_equal (@List.length dict)) in E.
    rewrite session_length in E. cbn in E. lia. }
  destruct (Hfile Hne) as [_ Hread].
  exists (persisted (session (monitor_of args) w N)).
  rewrite (persisted_uniform Hne (session_keys Hok)) in *.
  unfold file_timestamps. cbn [csv_header csv_rows].
  split; [assumption|].
  split; [reflexivity|].
  split; [reflexivity|].
  split; [now rewrite length_map, session_length|].
  split; [now apply session_timestamps|].
  apply clock_non_decreasing.
Qed.

Lemma stopped_run_persists_each_tick_witness :
  let args := sample_args f2 in
  let w := sample_world in
  let pre := repeat Step (1 + 2 * TICK_STEPS + 6) in
  let post := repeat Step 14 in
  let N := 3 in
  let mon := monitor_of args in
  let m := run_events w pre (main args w []) in
  (in_loop m = true /\
   completed_after m = N /\
   (forall i, i < N -> tick_ok mon w i) /\
   (0 < N -> time_sleep (arg_interval args) = Ok tt) /\
   14 <= count_steps post /\
   (forall i j, i <= j < N ->
                (now (tick_world w i) <= now (tick_world w j))%Z)) /\
  let m' := run_events w post (deliver_signal m) in
  pc m' = Returned /\
  tick m' = N /\
  snapshots (self m') = session mon w N /\
  exists f,
    read_file (output args) (fs m') = Some f /\
    csv_header f = COLUMNS /\
    csv_rows f = map row_of (session mon w N) /\
    List.length (csv_rows f) = N /\
    file_timestamps f = map Some (clock w N) /\
    non_decreasing (clock w N).
Proof.
  intros args w pre post N mon m.
  assert (H1 : in_loop m = true) by (vm_compute; reflexivity).
  assert (H2 : completed_after m = N) by (vm_compute; reflexivity).
  assert (H3 : forall i, i < N -> tick_ok mon w i)
    by (intros i _; apply sample_world_ok).
  assert (H4 : 0 < N -> time_sleep (arg_interval args) = Ok tt)
    by (intros _; vm_compute; reflexivity).
  assert (H5 : 14 <= count_steps post)
    by (apply Nat.leb_le; vm_compute; reflexivity).
  assert (H6 : forall i j, i <= j < N ->
                           (now (tick_world w i) <= now (tick_world w j))%Z)
    by (intros i j Hij; cbn; lia).
  split; [repeat split; assumption|].
  destruct (@stopped_run_persists_each_tick args w [] pre post N
              H1 H2 H3 H4 H5)
    as (_ & _ & Hpc & Ht & Hs & _ & _ & _ & Hfile).
  repeat (split; [assumption|]).
  destruct (Hfile (Nat.lt_0_succ 2)) as (f & Hr & Hh & Hrows & Hlen & Hts & Hmono).
  exists f. repeat (split; [assumption|]). exact (Hmono H6).
Defined.

(** C6, as stated, fails: when the wall clock is set back during the run,
    the rows are still in tick order and their timestamps decrease. *)
Lemma timestamps_follow_wall_clock :
  let w := clock_set_back_world in
  let m' := run_events w (repeat Step (1 + 2 * TICK_STEPS)
                            ++ Signal :: repeat Step 14)
                       (main (sample_args f2) w []) in
  pc m' = Returned /\
  tick m' = 2 /\
  option_map (fun f => List.length (csv_rows f))
             (read_file "data/baseline_log.csv" (fs m')) = Some 2 /\
  option_map file_timestamps (read_file "data/baseline_log.csv" (fs m'))
  = Some [Some 7200000000; Some 3602000000]%Z /\
  ~ non_decreasing [7200000000; 3602000000]%Z.
Proof.
  intros w m'.
  split; [vm_compute; reflexivity|].
  split; [vm_compute; reflexivity|].
  split; [vm_compute; reflexivity|].
  split; [vm_compute; reflexivity|].
  intros H. specialize (H 0 1 _ _ (Nat.le_succ_diag_r 0) eq_refl eq_refl).
  vm_compute in H. now apply H.
Qed.

(** ** Runs without signals *)

Lemma run_events_steps (w : World) (n : nat) (m : Machine) :
  run_events w (repeat Step n) m = steps w n m.
Proof. reflexivity. Qed.

Lemma steps_S (w : World) (n : nat) (m : Machine) :
  steps w (S n) m = steps w n (step w m).
Proof. reflexivity. Qed.

Lemma steps_add (w : World) (a b : nat) (m : Machine) :
  steps w (a + b) m = steps w b (steps w a m).
Proof. unfold steps. now rewrite repeat_app, run_events_app. Qed.

Lemma run_events_terminated (w : World) (evs : list event) (m : Machine) :
  terminated m = true -> run_events w evs m = m.
Proof.
  intros H. induction evs as [|ev evs IH]; [reflexivity|].
  cbn. replace (do_event w m ev) with m; [exact IH|].
  destruct ev; cbn.
  - unfold step. unfold terminated in H. destruct (pc m); try discriminate; reflexivity.
  - unfold deliver_signal. now rewrite H.
Qed.

Lemma steps_past (w : World) (a n : nat) (m : Machine) :
  terminated (steps w a m) = true -> a <= n -> steps w n m = steps w a m.
Proof.
  intros H Hle. replace n with (a + (n - a)) by lia.
  rewrite steps_add. now apply run_events_terminated.
Qed.

Lemma set_pc_set_pc (p q : Pc) (m : Machine) :
  set_pc p (set_pc q m) = set_pc p m.
Proof. reflexivity. Qed.

Lemma unwind_set_pc (e : exn) (p : Pc) (m : Machine) :
  unwind e (set_pc p m) = unwind e m.
Proof. unfold unwind. destruct (is_keyboard_interrupt e); reflexivity. Qed.

(** The statements of [_collect_snapshot] when it returns. *)
Lemma collecting_returns (w : World) (r : nat) :
  forall (k : CollectPc) (m : Machine) (d : dict),
    pc m = Collecting k ->
    collect_rank k = r ->
    collect_from (self m) (tick_world w (tick m)) k = Ok d ->
    steps w r m = set_pc (AtAppend d) m.
Proof.
  induction r as [|r IH]; intros k m d Hpc Hr Hd.
  - destruct k; discriminate.
  - rewrite steps_S. unfold step at 1. rewrite Hpc.
    rewrite collect_from_step in Hd.
    destruct (collect_step (self m) (tick_world w (tick m)) k)
      as [[k'|d']|e] eqn:E; [| |discriminate].
    + rewrite (IH k' _ d); [apply set_pc_set_pc|reflexivity| |exact Hd].
      apply collect_step_rank in E. lia.
    + injection Hd as ->. apply collect_step_last in E.
      assert (r = 0) by lia. subst r. reflexivity.
Qed.

(** The statements of [_collect_snapshot] when it raises. *)
Lemma collecting_raises (w : World) (r : nat) :
  forall (k : CollectPc) (m : Machine) (e : exn),
    pc m = Collecting k ->
    collect_rank k = r ->
    collect_from (self m) (tick_world w (tick m)) k = Raise e ->
    exists j, 0 < j <= r /\ steps w j m = unwind e m.
Proof.
  induction r as [|r IH]; intros k m e Hpc Hr He.
  - destruct k; discriminate.
  - rewrite collect_from_step in He.
    destruct (collect_step (self m) (tick_world w (tick m)) k)
      as [[k'|d']|e'] eqn:E; [|discriminate|].
    + destruct (IH k' (set_pc (Collecting k') m) e) as (j & Hj & Hsteps);
        [reflexivity| |exact He|].
      { apply collect_step_rank in E. lia. }
      exists (S j). split; [lia|].
      rewrite steps_S. unfold step at 1. rewrite Hpc, E.
      rewrite Hsteps. apply unwind_set_pc.
    + injection He as ->. exists 1. split; [lia|].
      rewrite steps_S. unfold step at 1. rewrite Hpc, E. reflexivity.
Qed.

Lemma collect_run_apps (s1 s2 : SystemMonitor) (w : TickWorld) (fuel : nat) :
  foreground_app s1 = foreground_app s2 ->
  background_app s1 = background_app s2 ->
  forall k, collect_run fuel s1 w k = collect_run fuel s2 w k.
Proof.
  intros Hf Hb. induction fuel as [|fuel IH]; intros k; [reflexivity|].
  cbn [collect_run]. rewrite (collect_step_apps s1 s2 w k Hf Hb).
  destruct (collect_step s2 w k) as [[k'|d]|e]; auto.
Qed.

Lemma collect_snapshot_apps (s1 s2 : SystemMonitor) (w : TickWorld) :
  foreground_app s1 = foreground_app s2 ->
  background_app s1 = background_app s2 ->
  _collect_snapshot s1 w = _collect_snapshot s2 w.
Proof.
  intros Hf Hb. rewrite <- !collect_from_start.
  now apply collect_run_apps.
Qed.

(** One iteration up to its sleep: the check of line 153, the nine
    statements of [_collect_snapshot], the append, the progress report. *)
Lemma tick_to_sleep (w : World) (m : Machine) (d : dict) :
  pc m = AtLoopTop ->
  running (self m) = true ->
  _collect_snapshot (self m) (tick_world w (tick m)) = Ok d ->
  exists out,
    steps w 12 m =
    {| self := append_snapshot d (self m); pc := AtSleep; tick := tick m;
       output_path := output_path m; fs := fs m; stdout := out |}.
Proof.
  intros Hpc Hrun Hd.
  change 12 with (1 + (9 + 2)). rewrite !steps_add.
  assert (H1 : steps w 1 m = set_pc (Collecting L109) m).
  { cbn. unfold step. now rewrite Hpc, Hrun. }
  rewrite H1.
  rewrite (@collecting_returns w 9 L109 _ d); try reflexivity;
    [|change (collect_from (self m) (tick_world w (tick m)) L109 = Ok d);
      now rewrite collect_from_start].
  destruct m as [s p t path f out]. cbn in *.
  unfold step; cbn.
  destruct (_ =? 0)%nat; cbn; eexists; reflexivity.
Qed.

(** One whole iteration of a healthy run. *)
Lemma tick_completes (w : World) (m : Machine) (d : dict) :
  pc m = AtLoopTop ->
  running (self m) = true ->
  _collect_snapshot (self m) (tick_world w (tick m)) = Ok d ->
  time_sleep (interval (self m)) = Ok tt ->
  exists out,
    steps w TICK_STEPS m =
    {| self := append_snapshot d (self m); pc := AtLoopTop; tick := S (tick m);
       output_path := output_path m; fs := fs m; stdout := out |}.
Proof.
  intros Hpc Hrun Hd Hsleep.
  destruct (tick_to_sleep w m Hpc Hrun Hd) as [out Hout].
  exists out. change TICK_STEPS with (12 + 1). rewrite steps_add, Hout.
  cbn. unfold step; cbn. now rewrite Hsleep.
Qed.

(** A healthy run, undisturbed, is at line 153 with the flag up and [N]
    iterations done after 1 + 13 N statements. *)
Lemma healthy_prefix (args : Args) (w : World) (fs0 : FileSystem) (N : nat) :
  (exists x, prime_cpu_percent w = Ok x) ->
  (forall i, i < N -> tick_ok (monitor_of args) w i) ->
  (0 < N -> time_sleep (arg_interval args) = Ok tt) ->
  let m := steps w (1 + TICK_STEPS * N) (main args w fs0) in
  pc m = AtLoopTop /\ running (self m) = true /\ tick m = N /\
  snapshots (self m) = session (monitor_of args) w N.
Proof.
  intros [x Hx] Hok Hsleep.
  assert (Hgoal : let m := steps w (1 + TICK_STEPS * N) (main args w fs0) in
                  pc m = AtLoopTop /\ running (self m) = true /\ tick m = N).
  { induction N as [|N IH].
    - cbn. unfold step, main. cbn. rewrite Hx. cbn. auto.
    - replace (1 + TICK_STEPS * S N) with ((1 + TICK_STEPS * N) + TICK_STEPS)
        by (unfold TICK_STEPS; lia).
      cbv zeta. rewrite steps_add.
      destruct IH as (Hpc & Hrun & Ht); [intros; apply Hok; lia|intros; apply Hsleep; lia|].
      set (m := steps w (1 + TICK_STEPS * N) (main args w fs0)) in *.
      pose proof (reachable_invariant args w fs0
                    (repeat Step (1 + TICK_STEPS * N))) as Hinv.
      rewrite run_events_steps in Hinv.
      fold m in Hinv.
      destruct (Hok N (Nat.lt_succ_diag_r N)) as [d Hd].
      destruct (@tick_completes w m d Hpc Hrun) as [out Hout].
      + rewrite Ht.
        rewrite (collect_snapshot_apps (self m) (monitor_of args)); auto;
          [apply (inv_foreground Hinv)|apply (inv_background Hinv)].
      + rewrite (inv_interval Hinv). apply Hsleep. lia.
      + rewrite Hout. cbn. auto. }
  cbv zeta in *. destruct Hgoal as (Hpc & Hrun & Ht).
  repeat (split; [assumption|]).
  pose proof (reachable_invariant args w fs0
                (repeat Step (1 + TICK_STEPS * N))) as Hinv.
  rewrite run_events_steps in Hinv.
  pose proof (inv_count Hinv) as Hc. rewrite Hpc, Ht in Hc.
  rewrite <- Hc at 2. apply built_in_order_session, (inv_built Hinv).
Qed.

(** An iteration whose [_collect_snapshot] raises: [run] is left within
    eleven statements, through the flush only for [KeyboardInterrupt]. *)
Lemma tick_raises (w : World) (m : Machine) (e : exn) :
  pc m = AtLoopTop ->
  running (self m) = true ->
  _collect_snapshot (self m) (tick_world w (tick m)) = Raise e ->
  exists a, a <= 11 /\
    let m' := steps w a m in
    terminated m' = true /\
    tick m' = tick m /\
    snapshots (self m') = snapshots (self m) /\
    pc m' = if is_keyboard_interrupt e then Returned else Propagated e.
Proof.
  intros Hpc Hrun He.
  assert (H1 : steps w 1 m = set_pc (Collecting L109) m).
  { cbn. unfold step. now rewrite Hpc, Hrun. }
  destruct (@collecting_raises w 9 L109 (set_pc (Collecting L109) m) e)
    as (j & Hj & Hsteps); try reflexivity.
  { change (collect_from (self m) (tick_world w (tick m)) L109 = Raise e).
    now rewrite collect_from_start. }
  rewrite unwind_set_pc in Hsteps.
  destruct (is_keyboard_interrupt e) eqn:Hki.
  - exists (1 + j + 1). split; [lia|].
    cbv zeta. rewrite !steps_add, H1, Hsteps.
    unfold unwind. rewrite Hki.
    destruct m as [s p t path f out]. cbn. unfold step, terminated; cbn.
    unfold flush; cbn. destruct (snapshots s) eqn:Es; cbn; rewrite ?Es; auto.
  - exists (1 + j). split; [lia|].
    cbv zeta. rewrite steps_add, H1, Hsteps.
    unfold unwind. rewrite Hki.
    destruct m as [s p t path f out]. cbn. unfold terminated; cbn. auto.
Qed.

(** C1, as the code has it. When the reads of ticks 1..N succeed and
    [_collect_snapshot] raises during tick N+1, the N snapshots are in the
    buffer when the exception leaves the loop. Any exception other than
    [KeyboardInterrupt] - a system-wide provider failure among them - is
    not caught: it propagates out of [run], the flush is not run and no
    file is written. Only [KeyboardInterrupt] is caught, and then the flush
    persists exactly the N buffered snapshots. *)
Theorem fatal_error_propagates_without_flush :
  forall (args : Args) (w : World) (fs0 : FileSystem) (N : nat) (e : exn)
         (n : nat),
    let mon := monitor_of args in
    (exists x, prime_cpu_percent w = Ok x) ->
    (forall i, i < N -> tick_ok mon w i) ->
    _collect_snapshot mon (tick_world w N) = Raise e ->
    (0 < N -> time_sleep (arg_interval args) = Ok tt) ->
    TICK_STEPS * N + 12 <= n ->
    let m := steps w n (main args w fs0) in
    tick m = N /\
    snapshots (self m) = session mon w N /\
    List.length (snapshots (self m)) = N /\
    (is_keyboard_interrupt e = false ->
     pc m = Propagated e /\ fs m = fs0) /\
    (is_keyboard_interrupt e = true ->
     pc m = Returned /\
     (0 < N ->
      read_file (output args) (fs m) = Some (persisted (session mon w N)) /\
      csv_rows (persisted (session mon w N)) = map row_of (session mon w N))).
Proof.
  intros args w fs0 N e n mon Hprime Hok He Hsleep Hn m.
  destruct (@healthy_prefix args w fs0 N Hprime Hok Hsleep) as (Hpc & Hrun & Ht & Hs).
  set (mN := steps w (1 + TICK_STEPS * N) (main args w fs0)) in *.
  pose proof (reachable_invariant args w fs0
                (repeat Step (1 + TICK_STEPS * N))) as HinvN.
  rewrite run_events_steps in HinvN. fold mN in HinvN.
  destruct (@tick_raises w mN e Hpc Hrun) as (a & Ha & Hterm & Ht' & Hs' & Hpc').
  { rewrite Ht.
    rewrite (collect_snapshot_apps (self mN) (monitor_of args)); auto;
      [apply (inv_foreground HinvN)|apply (inv_background HinvN)]. }
  assert (Hm : m = steps w a mN).
  { unfold m, mN. rewrite <- steps_add. apply steps_past.
    - rewrite steps_add. exact Hterm.
    - unfold TICK_STEPS in *. lia. }
  pose proof (reachable_invariant args w fs0 (repeat Step n)) as Hinv.
  rewrite run_events_steps in Hinv. fold m in Hinv.
  rewrite <- Hm in Ht', Hs', Hpc'. rewrite Ht in Ht'. rewrite Hs in Hs'.
  split; [assumption|]. split; [assumption|].
  split; [rewrite Hs'; apply session_length|].
  split; intros Hki; rewrite Hki in Hpc'.
  - split; [assumption|]. pose proof (inv_fs Hinv) as Hf.
    now rewrite Hpc' in Hf.
  - split; [assumption|]. intros Hpos.
    assert (Hne : session mon w N <> []).
    { intros E. apply (f_equal (@List.length dict)) in E.
      rewrite session_length in E. cbn in E. lia. }
    split.
    + now apply (returned_file Hinv Hpc' Hs').
    + now rewrite (persisted_uniform Hne (session_keys Hok)).
Qed.

Lemma failing_world_fifth_tick (args : Args) :
  _collect_snapshot (monitor_of args) (tick_world failing_world 4)
  = Raise OSError.
Proof. reflexivity. Qed.

Lemma failing_world_first_ticks (args : Args) (i : nat) :
  i < 4 -> tick_ok (monitor_of args) failing_world i.
Proof.
  intros Hi. unfold tick_ok.
  assert (E : tick_world failing_world i = sample_tick (Z.of_nat i * 2000000)).
  { unfold failing_world. cbn [tick_world].
    apply Nat.ltb_lt in Hi. now rewrite Hi. }
  rewrite E.
  eapply collect_snapshot_ok; try reflexivity; repeat constructor.
Qed.

Lemma interrupted_world_first_ticks (args : Args) (i : nat) :
  i < 4 -> tick_ok (monitor_of args) interrupted_world i.
Proof.
  intros Hi. unfold tick_ok.
  assert (E : tick_world interrupted_world i
              = sample_tick (Z.of_nat i * 2000000)).
  { unfold interrupted_world. cbn [tick_world].
    apply Nat.ltb_lt in Hi. now rewrite Hi. }
  rewrite E.
  eapply collect_snapshot_ok; try reflexivity; repeat constructor.
Qed.

Lemma fatal_error_propagates_without_flush_witness :
  let args := sample_args f2 in
  let mon := monitor_of args in
  (* a system-wide read failure on tick 5 *)
  (let w := failing_world in
   ((exists x, prime_cpu_percent w = Ok x) /\
    (forall i, i < 4 -> tick_ok mon w i) /\
    _collect_snapshot mon (tick_world w 4) = Raise OSError /\
    (0 < 4 -> time_sleep (arg_interval args) = Ok tt) /\
    TICK_STEPS * 4 + 12 <= 64 /\
    is_keyboard_interrupt OSError = false) /\
   let m := steps w 64 (main args w []) in
   tick m = 4 /\
   snapshots (self m) = session mon w 4 /\
   List.length (snapshots (self m)) = 4 /\
   pc m = Propagated OSError /\ fs m = []) /\
  (* [KeyboardInterrupt] on tick 5 *)
  (let w := interrupted_world in
   ((exists x, prime_cpu_percent w = Ok x) /\
    (forall i, i < 4 -> tick_ok mon w i) /\
    _collect_snapshot mon (tick_world w 4) = Raise KeyboardInterrupt /\
    (0 < 4 -> time_sleep (arg_interval args) = Ok tt) /\
    TICK_STEPS * 4 + 12 <= 64 /\
    is_keyboard_interrupt KeyboardInterrupt = true) /\
   let m := steps w 64 (main args w []) in
   pc m = Returned /\
   read_file (output args) (fs m) = Some (persisted (session mon w 4)) /\
   csv_rows (persisted (session mon w 4)) = map row_of (session mon w 4)).
Proof.
  intros args mon.
  assert (H4 : 0 < 4 -> time_sleep (arg_interval args) = Ok tt)
    by (intros _; vm_compute; reflexivity).
  assert (H5 : TICK_STEPS * 4 + 12 <= 64)
    by (apply Nat.leb_le; vm_compute; reflexivity).
  split.
  - intros w.
    assert (H1 : exists x, prime_cpu_percent w = Ok x) by (now exists f0).
    assert (H2 : forall i, i < 4 -> tick_ok mon w i)
      by (intros i Hi; now apply failing_world_first_ticks).
    assert (H3 : _collect_snapshot mon (tick_world w 4) = Raise OSError)
      by reflexivity.
    split; [repeat split; assumption|].
    destruct (@fatal_error_propagates_without_flush args w [] 4 OSError 64
                H1 H2 H3 H4 H5)
      as (Ht & Hs & Hl & Hfatal & _).
    repeat (split; [assumption|]).
    exact (Hfatal eq_refl).
  - intros w.
    assert (H1 : exists x, prime_cpu_percent w = Ok x) by (now exists f0).
    assert (H2 : forall i, i < 4 -> tick_ok mon w i)
      by (intros i Hi; now apply interrupted_world_first_ticks).
    assert (H3 : _collect_snapshot mon (tick_world w 4)
                 = Raise KeyboardInterrupt) by reflexivity.
    split; [repeat split; assumption|].
    destruct (@fatal_error_propagates_without_flush args w [] 4
                KeyboardInterrupt 64 H1 H2 H3 H4 H5)
      as (_ & _ & _ & _ & Hcaught).
    destruct (Hcaught eq_refl) as [Hpc Hfile].
    destruct (Hfile (Nat.lt_0_succ 3)) as [Hread Hrows].
    repeat split; assumption.
Defined.

(** C1, as stated, fails: a system-wide read failure on tick 5, ticks 1-4
    buffered, leaves [run] without the flush; four snapshots are in memory
    and no file exists. *)
Lemma fatal_error_loses_buffered_ticks :
  let m := steps failing_world 100
                 (main (sample_args f2) failing_world []) in
  pc m = Propagated OSError /\
  List.length (snapshots (self m)) = 4 /\
  fs m = [] /\
  read_file "data/baseline_log.csv" (fs m) = None.
Proof. vm_compute. repeat split; reflexivity. Qed.

(** ** A non-positive interval *)

Lemma negative_sleep_raises (x : float) :
  fltb x f0 = true -> time_sleep x = Raise ValueError.
Proof.
  unfold time_sleep, fltb, fleb, SFltb, SFleb.
  destruct x as [s|[]| |[] m e]; cbn; intros H; try discriminate; reflexivity.
Qed.

Lemma zero_sleep_returns (x : float) :
  fleb x f0 = true -> fltb x f0 = false -> time_sleep x = Ok tt.
Proof.
  unfold time_sleep, fltb, fleb, SFltb, SFleb.
  destruct x as [s|[]| |[] m e]; cbn; intros H1 H2; try discriminate; reflexivity.
Qed.

(** C2, as the code has it. An interval <= 0 is not refused: [main] builds
    the monitor with it and enters [run], and the first iteration samples
    and buffers a snapshot. With an interval < 0 the first sleep raises,
    the exception leaves [run] and no file is written; with an interval of
    zero the sleep returns and the run goes on, to write its rows when a
    signal stops it. *)
Theorem nonpositive_interval_is_not_refused :
  forall (args : Args) (w : World) (fs0 : FileSystem),
    let mon := monitor_of args in
    fleb (arg_interval args) f0 = true ->
    (exists x, prime_cpu_percent w = Ok x) ->
    tick_ok mon w 0 ->
    let m0 := main args w fs0 in
    (pc m0 = AtRunEntry /\
     interval (self m0) = arg_interval args /\
     running (self m0) = true) /\
    (let m := steps w 13 m0 in
     pc m = AtSleep /\
     snapshots (self m) = [snapshot_of mon w 0] /\
     fs m = fs0) /\
    (fltb (arg_interval args) f0 = true ->
     forall n, 14 <= n ->
       let m := steps w n m0 in
       pc m = Propagated ValueError /\
       snapshots (self m) = [snapshot_of mon w 0] /\
       fs m = fs0) /\
    (fltb (arg_interval args) f0 = false ->
     forall post, 14 <= count_steps post ->
       let m := run_events w post (deliver_signal (steps w 14 m0)) in
       pc m = Returned /\
       snapshots (self m) = [snapshot_of mon w 0] /\
       read_file (output args) (fs m) = Some (persisted [snapshot_of mon w 0]) /\
       csv_rows (persisted [snapshot_of mon w 0])
       = [row_of (snapshot_of mon w 0)]).
Proof.
  intros args w fs0 mon Hle Hprime Hok m0. subst mon m0.
  assert (Hentry : pc (main args w fs0) = AtRunEntry).
  { destruct Hprime as [x Hx]. unfold main. cbn. now rewrite Hx. }
  split; [repeat split; exact Hentry|].
  (* the first iteration, up to its sleep *)
  destruct (@healthy_prefix args w fs0 0 Hprime) as (Hpc1 & Hrun1 & Ht1 & Hs1);
    [intros i Hi; lia | intros Hi; lia |].
  change (1 + TICK_STEPS * 0) with 1 in *.
  pose proof (reachable_invariant args w fs0 (repeat Step 1)) as Hinv1.
  rewrite run_events_steps in Hinv1.
  remember (steps w 1 (main args w fs0)) as m1 eqn:Em1.
  destruct Hok as [d Hd].
  destruct (@tick_to_sleep w m1 d Hpc1 Hrun1) as [out Hout].
  { rewrite Ht1.
    rewrite (collect_snapshot_apps (self m1) (monitor_of args)); auto;
      [apply (inv_foreground Hinv1)|apply (inv_background Hinv1)]. }
  assert (H13 : steps w 13 (main args w fs0) =
                {| self := append_snapshot d (self m1); pc := AtSleep;
                   tick := tick m1; output_path := output_path m1;
                   fs := fs m1; stdout := out |}).
  { change 13 with (1 + 12). rewrite steps_add, <- Em1. exact Hout. }
  assert (Hfs1 : fs m1 = fs0).
  { pose proof (inv_fs Hinv1) as Hf. now rewrite Hpc1 in Hf. }
  assert (Hsnap : snapshot_of (monitor_of args) w 0 = d)
    by now apply snapshot_of_ok.
  split.
  { cbv zeta. rewrite H13. cbn. rewrite Hs1, Hsnap. auto. }
  split.
  - (* a negative interval *)
    intros Hneg n Hn. cbv zeta.
    assert (H14 : steps w 14 (main args w fs0) =
                  set_pc (Propagated ValueError) (steps w 13 (main args w fs0))).
    { change 14 with (13 + 1). rewrite steps_add, H13.
      cbn. unfold step; cbn.
      rewrite (inv_interval Hinv1), (negative_sleep_raises _ Hneg).
      reflexivity. }
    rewrite (@steps_past w 14 n (main args w fs0)); [|now rewrite H14|assumption].
    rewrite H14, H13. cbn. rewrite Hs1, Hsnap. auto.
  - (* an interval of zero *)
    intros Hzero post Hpost.
    pose proof (zero_sleep_returns _ Hle Hzero) as Hsleep.
    destruct (@healthy_prefix args w fs0 1 Hprime) as (Hpc & Hrun & Ht & Hs).
    { intros i Hi. assert (i = 0) by lia. subst i. now exists d. }
    { intros _. exact Hsleep. }
    change (1 + TICK_STEPS * 1) with 14 in *.
    destruct (@stopped_run args w fs0 (repeat Step 14) post)
      as (Hinv' & Hpc' & Ht' & Hs').
    { rewrite run_events_steps.
      unfold in_loop. now rewrite Hpc. }
    { rewrite run_events_steps.
      unfold in_tick. rewrite Hpc. discriminate. }
    { intros _. exact Hsleep. }
    { pose proof (steps_to_return_bound
                    (run_events w (repeat Step 14) (main args w fs0))). lia. }
    rewrite run_events_steps in Hinv', Hpc', Ht', Hs'.
    assert (Hone : session (monitor_of args) w
                           (completed_after (steps w 14 (main args w fs0)))
                   = [snapshot_of (monitor_of args) w 0]).
    { unfold completed_after, in_tick. rewrite Hpc, Ht. reflexivity. }
    rewrite Hone in Hs'.
    split; [exact Hpc'|]. split; [exact Hs'|].
    split.
    + apply (returned_file Hinv' Hpc' Hs'). discriminate.
    + rewrite persisted_uniform; [reflexivity|discriminate|].
      constructor; [|constructor]. rewrite Hsnap.
      now apply collect_snapshot_keys in Hd.
Qed.

Lemma nonpositive_interval_is_not_refused_witness :
  let w := sample_world in
  (* interval -2.0 *)
  (let args := sample_args f_minus2 in
   let mon := monitor_of args in
   (fleb (arg_interval args) f0 = true /\
    (exists x, prime_cpu_percent w = Ok x) /\
    tick_ok mon w 0 /\
    fltb (arg_interval args) f0 = true /\ 14 <= 20) /\
   let m0 := main args w [] in
   pc m0 = AtRunEntry /\
   (let m := steps w 13 m0 in
    pc m = AtSleep /\ snapshots (self m) = [snapshot_of mon w 0] /\ fs m = []) /\
   (let m := steps w 20 m0 in
    pc m = Propagated ValueError /\
    snapshots (self m) = [snapshot_of mon w 0] /\
    fs m = [])) /\
  (* interval 0.0 *)
  (let args := sample_args f0 in
   let mon := monitor_of args in
   let post := repeat Step 14 in
   (fleb (arg_interval args) f0 = true /\
    (exists x, prime_cpu_percent w = Ok x) /\
    tick_ok mon w 0 /\
    fltb (arg_interval args) f0 = false /\ 14 <= count_steps post) /\
   let m0 := main args w [] in
   let m := run_events w post (deliver_signal (steps w 14 m0)) in
   pc m = Returned /\
   snapshots (self m) = [snapshot_of mon w 0] /\
   read_file (output args) (fs m) = Some (persisted [snapshot_of mon w 0])).
Proof.
  intros w.
  assert (Hp : exists x, prime_cpu_percent w = Ok x) by (now exists f0).
  assert (H14 : 14 <= 20) by (apply Nat.leb_le; reflexivity).
  assert (Hpost : 14 <= count_steps (repeat Step 14))
    by (apply Nat.leb_le; reflexivity).
  split.
  - intros args mon.
    assert (H1 : fleb (arg_interval args) f0 = true) by reflexivity.
    assert (H2 : tick_ok mon w 0) by apply sample_world_ok.
    assert (H3 : fltb (arg_interval args) f0 = true) by reflexivity.
    split; [repeat split; assumption|].
    destruct (@nonpositive_interval_is_not_refused args w [] H1 Hp H2)
      as ((Hpc & _) & Hfirst & Hneg & _).
    split; [exact Hpc|]. split; [exact Hfirst|].
    exact (Hneg H3 20 H14).
  - intros args mon post.
    assert (H1 : fleb (arg_interval args) f0 = true) by reflexivity.
    assert (H2 : tick_ok mon w 0) by apply sample_world_ok.
    assert (H3 : fltb (arg_interval args) f0 = false) by reflexivity.
    split; [repeat split; assumption|].
    destruct (@nonpositive_interval_is_not_refused args w [] H1 Hp H2)
      as (_ & _ & _ & Hzero).
    destruct (Hzero H3 post Hpost) as (Hpc & Hs & Hfile & _).
    repeat split; assumption.
Defined.

(** C2, as stated, fails: with interval 0 the program starts, samples, and
    on the signal writes its output file. *)
Lemma zero_interval_runs_and_writes :
  let args := sample_args f0 in
  let w := sample_world in
  let m0 := main args w [] in
  let m := run_events w (repeat Step 14 ++ Signal :: repeat Step 14) m0 in
  fleb (arg_interval args) f0 = true /\
  pc m0 = AtRunEntry /\
  pc m = Returned /\
  List.length (snapshots (self m)) = 1 /\
  option_map (fun f => List.length (csv_rows f))
             (read_file (output args) (fs m)) = Some 1.
Proof. vm_compute. repeat split; reflexivity. Qed.


(** * Further properties of the sampling loop *)

(** ** Leaving the loop *)

Lemma flag_down_step (w : World) (m : Machine) :
  running (self m) = false ->
  running (self (step w m)) = false /\
  steps_to_return (step w m) <= pred (steps_to_return m) /\
  completed_after (step w m) <= completed_after m.
Proof.
  intros Hrun. destruct m as [s p t path f out].
  unfold steps_to_return, completed_after, in_tick, step. cbn in *.
  destruct p as [| |k|d|d| | | |e]; cbn.
  - auto.
  - rewrite Hrun. cbn. auto.
  - destruct (collect_step s (tick_world w t) k) as [[k'|d]|e] eqn:E; cbn.
    + split; [assumption|]. rewrite (collect_step_rank _ _ _ E). cbn.
      split; lia.
    + split; [assumption|]. rewrite (collect_step_last _ _ _ E). cbn.
      split; lia.
    + unfold unwind. destruct (is_keyboard_interrupt e); cbn;
        (split; [auto|]); (split; [destruct k; cbn; lia|lia]).
  - auto.
  - destruct (_ =? 0)%nat; cbn; auto.
  - destruct (time_sleep (interval s)) as [[]|e]; cbn; [auto|].
    unfold unwind. destruct (is_keyboard_interrupt e); cbn; auto.
  - unfold flush; cbn. destruct (snapshots s); cbn; auto.
  - auto.
  - auto.
Qed.

Lemma flag_down_signal (m : Machine) :
  running (self m) = false ->
  running (self (deliver_signal m)) = false /\
  steps_to_return (deliver_signal m) = steps_to_return m /\
  completed_after (deliver_signal m) = completed_after m.
Proof.
  intros Hrun. unfold deliver_signal. destruct (terminated m); auto.
Qed.

Lemma count_steps_step (evs : list event) :
  count_steps (Step :: evs) = S (count_steps evs).
Proof. reflexivity. Qed.

Lemma count_steps_signal (evs : list event) :
  count_steps (Signal :: evs) = count_steps evs.
Proof. reflexivity. Qed.

Lemma run_events_cons (w : World) (ev : event) (evs : list event) (m : Machine) :
  run_events w (ev :: evs) m = run_events w evs (do_event w m ev).
Proof. reflexivity. Qed.

Lemma flag_down_run (w : World) (evs : list event) :
  forall m : Machine,
    running (self m) = false ->
    steps_to_return m <= count_steps evs ->
    terminated (run_events w evs m) = true /\
    completed_after (run_events w evs m) <= completed_after m.
Proof.
  induction evs as [|ev evs IH]; intros m Hrun Hle.
  - cbn [run_events fold_left]. split; [|lia].
    assert (H0 : steps_to_return m = 0) by (cbn in Hle; lia).
    unfold steps_to_return, terminated in *.
    destruct (pc m); try discriminate; try reflexivity.
    destruct k; discriminate.
  - rewrite run_events_cons. destruct ev; cbn [do_event].
    + destruct (@flag_down_step w m Hrun) as (Hrun' & Hs & Hc).
      rewrite count_steps_step in Hle.
      destruct (IH (step w m) Hrun') as [Ht Hc']; [lia|].
      split; [assumption|lia].
    + destruct (@flag_down_signal m Hrun) as (Hrun' & Hs & Hc).
      rewrite count_steps_signal in Hle.
      destruct (IH (deliver_signal m) Hrun') as [Ht Hc']; [lia|].
      split; [assumption|lia].
Qed.

Lemma deliver_signal_lowers (m : Machine) :
  terminated m = false ->
  running (self (deliver_signal m)) = false /\
  steps_to_return (deliver_signal m) = steps_to_return m /\
  completed_after (deliver_signal m) = completed_after m.
Proof.
  intros Ht. unfold deliver_signal. rewrite Ht.
  destruct m as [s p t path f out]. cbn. auto.
Qed.

(** X1. Once a signal has been delivered, [run] is left within fourteen
    statements, whatever the provider answers meanwhile: it returns through
    the flush or an exception propagates, and no iteration is started
    beyond the one in progress. *)
Theorem signal_stops_within_one_tick :
  forall (args : Args) (w : World) (fs0 : FileSystem) (pre post : list event),
    14 <= count_steps post ->
    let m := run_events w pre (main args w fs0) in
    let m' := run_events w post (deliver_signal m) in
    terminated m' = true /\ tick m' <= completed_after m.
Proof.
  intros args w fs0 pre post Hpost m m'.
  assert (Htick : forall x : Machine, tick x <= completed_after x).
  { intros x. unfold completed_after. destruct (in_tick x); lia. }
  destruct (terminated m) eqn:Ht.
  - assert (E : deliver_signal m = m)
      by (unfold deliver_signal; now rewrite Ht).
    unfold m'. rewrite E, (run_events_terminated w post m Ht).
    split; [assumption|apply Htick].
  - destruct (@deliver_signal_lowers m Ht) as (Hrun & Hs & Hc).
    destruct (@flag_down_run w post (deliver_signal m) Hrun) as [Hterm Hle].
    { pose proof (steps_to_return_bound m). lia. }
    split; [exact Hterm|].
    pose proof (Htick m'). unfold m' in *. lia.
Qed.

Lemma signal_stops_within_one_tick_witness :
  let args := sample_args f2 in
  let w := failing_world in
  let pre := repeat Step (1 + 4 * TICK_STEPS + 1) in
  let post := repeat Step 14 in
  14 <= count_steps post /\
  let m := run_events w pre (main args w []) in
  let m' := run_events w post (deliver_signal m) in
  terminated m' = true /\ tick m' <= completed_after m.
Proof.
  intros args w pre post.
  assert (H : 14 <= count_steps post) by (apply Nat.leb_le; reflexivity).
  split; [exact H|].
  exact (@signal_stops_within_one_tick args w [] pre post H).
Defined.

(** ** A run that nothing stops *)

Lemma steps_snoc (w : World) (n : nat) (m : Machine) :
  steps w (S n) m = step w (steps w n m).
Proof.
  replace (S n) with (n + 1) by lia. now rewrite steps_add.
Qed.

(** X2. With a provider whose every tick succeeds, a sleep that returns and
    no signal, [run] never leaves the loop: after any number of statements
    the flag is up, the process is inside the loop and no file has been
    written. *)
Theorem undisturbed_run_never_stops :
  forall (args : Args) (w : World) (fs0 : FileSystem) (n : nat),
    (exists x, prime_cpu_percent w = Ok x) ->
    healthy (monitor_of args) w ->
    time_sleep (arg_interval args) = Ok tt ->
    let m := steps w n (main args w fs0) in
    running (self m) = true /\ in_loop m = true /\ terminated m = false /\
    fs m = fs0.
Proof.
  intros args w fs0 n [x Hx] Hok Hsleep. cbv zeta.
  assert (H : running (self (steps w n (main args w fs0))) = true /\
              in_loop (steps w n (main args w fs0)) = true).
  { induction n as [|n IH].
    - cbn. unfold in_loop, main. cbn. now rewrite Hx.
    - rewrite steps_snoc.
      pose proof (reachable_invariant args w fs0 (repeat Step n)) as Hinv.
      rewrite run_events_steps in Hinv.
      destruct IH as [Hrun Hloop].
      destruct Hinv as [Hfg Hbg Hint Hpath Hbuilt Hcount Hpend Hfs].
      destruct (steps w n (main args w fs0)) as [s p t path f out].
      unfold in_loop, step in *. cbn in *.
      destruct p as [| |k|d|d| | | |e]; try discriminate; cbn.
      + auto.
      + rewrite Hrun. cbn. auto.
      + rewrite (collect_step_apps s (monitor_of args) _ k) by assumption.
        rewrite collect_from_step in Hpend.
        destruct (Hok t) as [d Hd]. rewrite Hd in Hpend.
        destruct (collect_step (monitor_of args) (tick_world w t) k)
          as [[k'|d']|e]; [auto|auto|discriminate].
      + auto.
      + destruct (_ =? 0)%nat; cbn; auto.
      + rewrite Hint, Hsleep. cbn. auto. }
  destruct H as [Hrun Hloop].
  pose proof (reachable_invariant args w fs0 (repeat Step n)) as Hinv.
  rewrite run_events_steps in Hinv.
  pose proof (inv_fs Hinv) as Hf.
  unfold in_loop, terminated in *.
  destruct (pc (steps w n (main args w fs0))); try discriminate; auto.
Qed.

Lemma sample_world_healthy (args : Args) : healthy (monitor_of args) sample_world.
Proof. intros i. apply sample_world_ok. Qed.

Lemma undisturbed_run_never_stops_witness :
  let args := sample_args f2 in
  let w := sample_world in
  ((exists x, prime_cpu_percent w = Ok x) /\
   healthy (monitor_of args) w /\
   time_sleep (arg_interval args) = Ok tt) /\
  let m := steps w 1000 (main args w []) in
  running (self m) = true /\ in_loop m = true /\ terminated m = false /\
  fs m = [].
Proof.
  intros args w.
  assert (H1 : exists x, prime_cpu_percent w = Ok x) by (now exists f0).
  assert (H2 : healthy (monitor_of args) w) by apply sample_world_healthy.
  assert (H3 : time_sleep (arg_interval args) = Ok tt) by reflexivity.
  split; [repeat split; assumption|].
  exact (@undisturbed_run_never_stops args w [] 1000 H1 H2 H3).
Defined.

(** ** The session buffer and the files *)

Lemma step_appends (w : World) (m : Machine) :
  exists rest, snapshots (self (step w m)) = snapshots (self m) ++ rest.
Proof.
  destruct m as [s p t path f out]. unfold step. cbn.
  destruct p as [| |k|d|d| | | |e]; cbn;
    try (exists []; now rewrite ?app_nil_r).
  - destruct (running s); exists []; now rewrite ?app_nil_r.
  - destruct (collect_step s (tick_world w t) k) as [[k'|d]|e]; cbn;
      try (exists []; now rewrite ?app_nil_r).
    unfold unwind. destruct (is_keyboard_interrupt e); cbn;
      exists []; now rewrite ?app_nil_r.
  - now exists [d].
  - destruct (_ =? 0)%nat; exists []; now rewrite ?app_nil_r.
  - destruct (time_sleep (interval s)) as [[]|e]; cbn;
      try (exists []; now rewrite ?app_nil_r).
    unfold unwind. destruct (is_keyboard_interrupt e); cbn;
      exists []; now rewrite ?app_nil_r.
  - unfold flush; cbn. destruct (snapshots s) eqn:Es; cbn; rewrite ?Es;
      exists []; cbn; now rewrite ?app_nil_r.
Qed.

Lemma signal_keeps_snapshots (m : Machine) :
  snapshots (self (deliver_signal m)) = snapshots (self m).
Proof. unfold deliver_signal. destruct (terminated m); reflexivity. Qed.

Lemma run_events_appends (w : World) (evs : list event) :
  forall m : Machine,
    exists rest,
      snapshots (self (run_events w evs m)) = snapshots (self m) ++ rest.
Proof.
  induction evs as [|ev evs IH]; intros m.
  - exists []. cbn. now rewrite app_nil_r.
  - rewrite run_events_cons. destruct (IH (do_event w m ev)) as [rest Hrest].
    rewrite Hrest. destruct ev; cbn [do_event].
    + destruct (step_appends w m) as [r Hr]. rewrite Hr.
      exists (r ++ rest). now rewrite app_assoc.
    + rewrite signal_keeps_snapshots. now exists rest.
Qed.

(** X3. The session buffer is append-only: whatever happens later in a run
    (statements, signals, exceptions, the flush), the snapshots buffered so
    far stay in the buffer, unchanged and in the same positions. *)
Theorem session_is_append_only :
  forall (args : Args) (w : World) (fs0 : FileSystem) (evs1 evs2 : list event),
    let earlier := run_events w evs1 (main args w fs0) in
    let later := run_events w (evs1 ++ evs2) (main args w fs0) in
    (exists rest,
        snapshots (self later) = snapshots (self earlier) ++ rest) /\
    List.length (snapshots (self earlier))
    <= List.length (snapshots (self later)) /\
    (forall i d, nth_error (snapshots (self earlier)) i = Some d ->
                 nth_error (snapshots (self later)) i = Some d).
Proof.
  intros args w fs0 evs1 evs2 earlier later.
  unfold later. rewrite run_events_app. fold earlier.
  destruct (run_events_appends w evs2 earlier) as [rest Hrest].
  split; [now exists rest|]. rewrite Hrest. split.
  - rewrite length_app. lia.
  - intros i d Hi. rewrite nth_error_app1; [assumption|].
    apply nth_error_Some. congruence.
Qed.

Lemma session_is_append_only_witness :
  let args := sample_args f2 in
  let w := sample_world in
  let evs1 := repeat Step (1 + 2 * TICK_STEPS) in
  let evs2 := repeat Step TICK_STEPS ++ [Signal; Step; Step] in
  let earlier := run_events w evs1 (main args w []) in
  let later := run_events w (evs1 ++ evs2) (main args w []) in
  List.length (snapshots (self earlier)) = 2 /\
  List.length (snapshots (self later)) = 3 /\
  (exists rest,
      snapshots (self later) = snapshots (self earlier) ++ rest) /\
  (forall i d, nth_error (snapshots (self earlier)) i = Some d ->
               nth_error (snapshots (self later)) i = Some d).
Proof.
  intros args w evs1 evs2 earlier later.
  split; [vm_compute; reflexivity|]. split; [vm_compute; reflexivity|].
  destruct (@session_is_append_only args w [] evs1 evs2) as (H1 & _ & H3).
  split; [exact H1|exact H3].
Defined.

Lemma read_file_other (path p : string) (f : csv_file) (files : FileSystem) :
  path <> p -> read_file path (write_file p f files) = read_file path files.
Proof.
  intros H. cbn. destruct (String.eqb_spec path p); [contradiction|reflexivity].
Qed.

(** X4. [run] writes one file at most, at its very end: as long as it has
    not returned no file has changed; when it has, the only path that can
    differ is the output path, which then holds the whole session and
    nothing of what the path held before; every other path reads as at the
    start. *)
Theorem only_the_output_path_is_written :
  forall (args : Args) (w : World) (fs0 : FileSystem) (evs : list event)
         (path : string),
    let m := run_events w evs (main args w fs0) in
    (pc m <> Returned -> fs m = fs0) /\
    (path <> output args -> read_file path (fs m) = read_file path fs0) /\
    (pc m = Returned -> snapshots (self m) <> [] ->
     read_file (output args) (fs m) = Some (persisted (snapshots (self m)))) /\
    (pc m = Returned -> snapshots (self m) = [] -> fs m = fs0).
Proof.
  intros args w fs0 evs path m.
  pose proof (reachable_invariant args w fs0 evs) as Hinv. fold m in Hinv.
  pose proof (inv_fs Hinv) as Hf.
  split; [|split; [|split]].
  - intros Hpc. destruct (pc m); try assumption. contradiction.
  - intros Hpath.
    assert (Hcases : fs m = fs0 \/
                     fs m = write_file (output args)
                                       (persisted (snapshots (self m))) fs0).
    { destruct (pc m); auto. destruct (snapshots (self m)); auto. }
    destruct Hcases as [-> | ->]; [reflexivity|now apply read_file_other].
  - intros Hpc Hne. rewrite Hpc in Hf.
    destruct (snapshots (self m)); [contradiction|].
    rewrite Hf. apply read_write_file.
  - intros Hpc He. now rewrite Hpc, He in Hf.
Qed.

Lemma only_the_output_path_is_written_witness :
  let args := sample_args f2 in
  let w := sample_world in
  let old := {| csv_header := ["stale"%string]; csv_rows := [] |} in
  let fs0 := [("data/baseline_log.csv"%string, old);
              ("notes.csv"%string, old)] in
  let evs := repeat Step (1 + 2 * TICK_STEPS) ++ Signal :: repeat Step 2 in
  let m := run_events w evs (main args w fs0) in
  ("notes.csv"%string <> output args /\
   pc m = Returned /\ snapshots (self m) <> []) /\
  read_file "notes.csv" (fs m) = Some old /\
  read_file (output args) (fs m) = Some (persisted (snapshots (self m))) /\
  persisted (snapshots (self m)) <> old.
Proof.
  intros args w old fs0 evs m.
  assert (H1 : "notes.csv"%string <> output args) by discriminate.
  assert (H2 : pc m = Returned) by (vm_compute; reflexivity).
  assert (H3 : snapshots (self m) <> []) by (vm_compute; discriminate).
  split; [repeat split; assumption|].
  destruct (@only_the_output_path_is_written args w fs0 evs "notes.csv")
    as (_ & Hother & Hout & _).
  split; [exact (Hother H1)|]. split; [exact (Hout H2 H3)|].
  vm_compute. discriminate.
Defined.

(** ** Signals *)

Lemma same_outcome_refl (m : Machine) : same_outcome m m.
Proof. repeat split. Qed.

Lemma step_same_outcome (w : World) (m1 m2 : Machine) :
  same_outcome m1 m2 -> same_outcome (step w m1) (step w m2).
Proof.
  destruct m1 as [s1 p1 t1 path1 f1 out1], m2 as [s2 p2 t2 path2 f2 out2].
  unfold same_outcome. cbn. intros (-> & -> & -> & -> & ->).
  unfold step. cbn.
  destruct p2 as [| |k|d|d| | | |e]; cbn; try (repeat split; fail).
  - destruct (running s2); repeat split.
  - destruct (collect_step s2 (tick_world w t2) k) as [[k'|d]|e]; cbn;
      try (repeat split; fail).
    unfold unwind. destruct (is_keyboard_interrupt e); repeat split.
  - destruct (_ =? 0)%nat; repeat split.
  - destruct (time_sleep (interval s2)) as [[]|e]; cbn;
      try (repeat split; fail).
    unfold unwind. destruct (is_keyboard_interrupt e); repeat split.
  - unfold flush; cbn. destruct (snapshots s2); repeat split.
Qed.

Lemma signal_same_outcome (m1 m2 : Machine) :
  same_outcome m1 m2 ->
  same_outcome (deliver_signal m1) (deliver_signal m2).
Proof.
  destruct m1 as [s1 p1 t1 path1 f1 out1], m2 as [s2 p2 t2 path2 f2 out2].
  unfold same_outcome. cbn. intros (-> & -> & -> & -> & ->).
  unfold deliver_signal, terminated. cbn.
  destruct p2; repeat split.
Qed.

Lemma run_events_same_outcome (w : World) (evs : list event) :
  forall m1 m2 : Machine,
    same_outcome m1 m2 ->
    same_outcome (run_events w evs m1) (run_events w evs m2).
Proof.
  induction evs as [|ev evs IH]; intros m1 m2 H; [exact H|].
  rewrite !run_events_cons. apply IH.
  destruct ev; [now apply step_same_outcome|now apply signal_same_outcome].
Qed.

Lemma signal_twice (m : Machine) :
  same_outcome (deliver_signal (deliver_signal m)) (deliver_signal m).
Proof.
  destruct m as [s p t path f out].
  unfold deliver_signal, terminated, same_outcome. cbn.
  destruct p; cbn; repeat split.
Qed.

(** X5. A signal that follows another changes nothing but the lines
    printed: with the second signal or without it, the run goes through the
    same positions, buffers the same snapshots and writes the same file. *)
Theorem repeated_signal_is_harmless :
  forall (w : World) (m0 : Machine) (pre post : list event),
    same_outcome (run_events w (pre ++ Signal :: Signal :: post) m0)
                 (run_events w (pre ++ Signal :: post) m0).
Proof.
  intros w m0 pre post.
  rewrite !run_events_app, !run_events_cons. cbn [do_event].
  apply run_events_same_outcome, signal_twice.
Qed.

Lemma repeated_signal_is_harmless_witness :
  let m0 := main (sample_args f2) sample_world [] in
  let pre := repeat Step (1 + TICK_STEPS + 5) in
  let post := repeat Step 20 in
  let twice := run_events sample_world (pre ++ Signal :: Signal :: post) m0 in
  let once := run_events sample_world (pre ++ Signal :: post) m0 in
  same_outcome twice once /\ pc once = Returned /\
  stdout twice <> stdout once.
Proof.
  intros m0 pre post twice once.
  split; [exact (@repeated_signal_is_harmless sample_world m0 pre post)|].
  split; [vm_compute; reflexivity|vm_compute; discriminate].
Defined.



(** ** The resolver beyond the per-process errors *)

Lemma find_loop_app (pat : string) (pre rest matching : list Process) :
  Forall enumerable_or_gone pre ->
  find_loop pat (pre ++ rest) matching =
  find_loop pat rest (matching ++ filter (name_matches pat) pre).
Proof.
  intros H; revert matching.
  induction H as [|p pre Hp _ IH]; intros matching; cbn [app filter].
  - now rewrite app_nil_r.
  - unfold enumerable_or_gone in Hp. cbn [find_loop].
    destruct (proc_info_name p) as [name|e] eqn:En.
    + replace (name_matches pat p) with (str_in pat (lower name))
        by (unfold name_matches; now rewrite En).
      destruct (str_in pat (lower name)).
      * rewrite IH, <- app_assoc. reflexivity.
      * apply IH.
    + replace (name_matches pat p) with false
        by (unfold name_matches; now rewrite En).
      rewrite Hp. apply IH.
Qed.

(** X7. A name read that fails with anything but the three per-process
    errors is not skipped: the resolver raises that exception at the first
    such handle, the handles matched before it are dropped, the rest of the
    enumeration is not read, and the snapshot of the tick is not built. *)
Theorem name_read_error_propagates :
  forall (pattern : string) (pre rest : list Process) (p : Process) (e : exn),
    Forall enumerable_or_gone pre ->
    proc_info_name p = Raise e ->
    is_process_error e = false ->
    _find_processes_by_name pattern (Ok (pre ++ p :: rest)) = Raise e /\
    (forall (mon : SystemMonitor) (tw : TickWorld) c vm net,
        cpu_percent tw = Ok c -> virtual_memory tw = Ok vm ->
        net_io_counters tw = Ok net ->
        process_iter_1 tw = Ok (pre ++ p :: rest) ->
        _collect_snapshot mon tw = Raise e).
Proof.
  intros pattern pre rest p e Hpre Hp He.
  assert (H : forall pat, _find_processes_by_name pat (Ok (pre ++ p :: rest))
                          = Raise e).
  { intros pat. unfold _find_processes_by_name. cbn [bind].
    rewrite find_loop_app by assumption.
    now apply find_loop_propagates. }
  split; [apply H|].
  intros mon tw c vm net Hc Hvm Hnet Hit.
  unfold _collect_snapshot. rewrite Hc, Hvm, Hnet, Hit. cbn [bind].
  now rewrite H.
Qed.

Lemma name_read_error_propagates_witness :
  let pre := [live 1 "Code Helper" 3 1000; unnamed 2 AccessDenied]%string in
  let p := unnamed 3 OSError in
  let rest := [live 4 "code" 1 500]%string in
  _find_processes_by_name "Code" (Ok (pre ++ p :: rest)) = Raise OSError /\
  _collect_snapshot (monitor_of (sample_args f2))
                    (tick_enumerating (pre ++ p :: rest)) = Raise OSError.
Proof.
  intros pre p rest.
  assert (Hpre : Forall enumerable_or_gone pre)
    by (repeat constructor).
  destruct (@name_read_error_propagates "Code" pre rest p OSError Hpre
              eq_refl eq_refl) as [H1 H2].
  split; [exact H1|].
  exact (H2 (monitor_of (sample_args f2)) (tick_enumerating (pre ++ p :: rest))
            _ _ _ eq_refl eq_refl eq_refl eq_refl).
Defined.

Lemma string_app_assoc (a b c : string) :
  ((a ++ b) ++ c = a ++ (b ++ c))%string.
Proof. induction a as [|x a IH]; cbn; [reflexivity|now rewrite IH]. Qed.

Lemma str_in_trans (a b c : string) :
  str_in a b = true -> str_in b c = true -> str_in a c = true.
Proof.
  rewrite !str_in_spec.
  intros (pre1 & post1 & ->) (pre2 & post2 & ->).
  exists (pre2 ++ pre1)%string, (post1 ++ post2)%string.
  now rewrite !string_app_assoc.
Qed.

Lemma name_matches_narrower (a b : string) (p : Process) :
  str_in a b = true -> name_matches b p = true -> name_matches a p = true.
Proof.
  unfold name_matches. destruct (proc_info_name p); [|discriminate].
  apply str_in_trans.
Qed.

Lemma filter_narrower {A : Type} (f g : A -> bool) (l : list A) :
  (forall x, g x = true -> f x = true) ->
  filter g (filter f l) = filter g l.
Proof.
  intros H. induction l as [|x l IH]; [reflexivity|]. cbn [filter].
  destruct (f x) eqn:Ef; cbn [filter].
  - now rewrite IH.
  - destruct (g x) eqn:Eg; [|exact IH].
    apply H in Eg. congruence.
Qed.

(** X8. Resolution narrows with the selector: when selector [a] occurs,
    case apart, inside selector [b], every handle resolved for [b] is
    resolved for [a], in the same order; the handles of [b] are those of
    [a] whose name also contains [b]. *)
Theorem narrower_selector_resolves_fewer :
  forall (a b : string) (procs : list Process),
    Forall enumerable_or_gone procs ->
    str_in (lower a) (lower b) = true ->
    exists found_a found_b,
      _find_processes_by_name a (Ok procs) = Ok found_a /\
      _find_processes_by_name b (Ok procs) = Ok found_b /\
      found_b = filter (name_matches (lower b)) found_a /\
      incl found_b found_a /\
      List.length found_b <= List.length found_a.
Proof.
  intros a b procs Hp Hab.
  exists (filter (name_matches (lower a)) procs),
         (filter (name_matches (lower b)) procs).
  rewrite !find_processes_filter by assumption.
  assert (Heq : filter (name_matches (lower b)) procs =
                filter (name_matches (lower b))
                       (filter (name_matches (lower a)) procs)).
  { symmetry. apply filter_narrower. intros p.
    now apply name_matches_narrower. }
  repeat split; [exact Heq| |].
  - rewrite Heq. intros p Hin. apply filter_In in Hin. tauto.
  - rewrite Heq. apply filter_length_le.
Qed.

Lemma narrower_selector_resolves_fewer_witness :
  Forall enumerable_or_gone sample_procs /\
  exists found_a found_b,
    _find_processes_by_name "CODE" (Ok sample_procs) = Ok found_a /\
    _find_processes_by_name "Code Helper" (Ok sample_procs) = Ok found_b /\
    found_b = filter (name_matches (lower "Code Helper")) found_a /\
    incl found_b found_a /\
    List.length found_b <= List.length found_a.
Proof.
  assert (H : Forall enumerable_or_gone sample_procs)
    by (repeat constructor).
  split; [exact H|].
  exact (@narrower_selector_resolves_fewer "CODE" "Code Helper" sample_procs
           H eq_refl).
Defined.

(** ** The aggregator beyond the per-process errors *)

Lemma gone_read (vmem : result svmem) (p : Process) :
  gone p = true ->
  exists e, read_process vmem p = Raise e /\ is_process_error e = true.
Proof.
  unfold gone, read_process.
  destruct (proc_cpu_percent p) as [cpu|e]; cbn [bind].
  - destruct (proc_memory_info_rss p) as [rss|e]; cbn [bind];
      [discriminate|]. intros H. now exists e.
  - intros H. now exists e.
Qed.

Lemma aggregate_loop_gone (vmem : result svmem) (pre rest : list Process)
      (total_cpu total_memory : float) :
  forallb gone pre = true ->
  aggregate_loop vmem (pre ++ rest) total_cpu total_memory =
  aggregate_loop vmem rest total_cpu total_memory.
Proof.
  induction pre as [|p pre IH]; [reflexivity|].
  cbn [forallb app aggregate_loop]. intros H.
  apply andb_true_iff in H. destruct H as [Hp Hpre].
  destruct (@gone_read vmem p Hp) as (e & -> & ->). now apply IH.
Qed.

(** X9. When every handle handed to the aggregator has vanished (a read
    fails as exited, access denied or zombie), the result is (0.0, 0.0),
    as for an empty list; the memory total is never asked for, so this
    holds even where [virtual_memory] would raise. *)
Theorem vanished_processes_sum_to_zero :
  forall (vmem : result svmem) (procs : list Process),
    forallb gone procs = true ->
    _aggregate_process_metrics vmem procs = Ok (f0, f0) /\
    _aggregate_process_metrics vmem procs = _aggregate_process_metrics vmem [].
Proof.
  intros vmem procs H.
  assert (Hz : _aggregate_process_metrics vmem procs = Ok (f0, f0)).
  { destruct procs as [|p procs]; [reflexivity|].
    unfold _aggregate_process_metrics.
    rewrite <- (app_nil_r (p :: procs)).
    now rewrite aggregate_loop_gone. }
  split; [exact Hz|now rewrite Hz].
Qed.

Lemma vanished_processes_sum_to_zero_witness :
  let procs := [fails_on_read 7 "code" ZombieProcess;
                fails_on_memory 8 "Code Helper (GPU)" 9 AccessDenied;
                unnamed 3 NoSuchProcess]%string in
  forallb gone procs = true /\
  _aggregate_process_metrics (Raise OSError) procs = Ok (f0, f0) /\
  _aggregate_process_metrics (Raise OSError) procs =
  _aggregate_process_metrics (Raise OSError) [].
Proof.
  intros procs. split; [reflexivity|].
  exact (@vanished_processes_sum_to_zero (Raise OSError) procs eq_refl).
Defined.

Lemma aggregate_loop_app (vmem : result svmem) (pre rest : list Process)
      (total_cpu total_memory : float) :
  Forall (survives_or_gone vmem) pre ->
  aggregate_loop vmem (pre ++ rest) total_cpu total_memory =
  aggregate_loop vmem rest
    (fold_left fadd (map fst (surviving_readings vmem pre)) total_cpu)
    (fold_left fadd (map snd (surviving_readings vmem pre)) total_memory).
Proof.
  intros H; revert total_cpu total_memory.
  induction H as [|p pre Hp _ IH]; intros total_cpu total_memory.
  - reflexivity.
  - unfold survives_or_gone in Hp.
    cbn [app aggregate_loop surviving_readings flat_map].
    destruct (read_process vmem p) as [[cpu mem]|e].
    + rewrite IH. reflexivity.
    + rewrite Hp, IH. reflexivity.
Qed.

(** X10. A read that fails inside the aggregation loop with anything but
    the three per-process errors is not skipped: the aggregator raises it
    at the first such handle, and the sums accumulated over the handles
    before it are not returned. *)
Theorem aggregate_error_propagates :
  forall (vmem : result svmem) (pre rest : list Process) (p : Process)
         (e : exn),
    Forall (survives_or_gone vmem) pre ->
    read_process vmem p = Raise e ->
    is_process_error e = false ->
    _aggregate_process_metrics vmem (pre ++ p :: rest) = Raise e.
Proof.
  intros vmem pre rest p e Hpre Hp He.
  assert (H : aggregate_loop vmem (pre ++ p :: rest) f0 f0 = Raise e).
  { rewrite aggregate_loop_app by assumption.
    cbn [aggregate_loop]. now rewrite Hp, He. }
  unfold _aggregate_process_metrics.
  destruct (pre ++ p :: rest) eqn:E; [|exact H].
  destruct pre; discriminate.
Qed.

Lemma aggregate_error_propagates_witness :
  let pre := [live 1 "Code Helper" 3 1000;
              fails_on_read 7 "code" ZombieProcess]%string in
  let p := fails_on_memory 8 "code" 9 OSError in
  let rest := [live 4 "decode" 7 4000]%string in
  Forall (survives_or_gone sample_vmem) pre /\
  _aggregate_process_metrics sample_vmem (pre ++ p :: rest) = Raise OSError.
Proof.
  intros pre p rest.
  assert (Hpre : Forall (survives_or_gone sample_vmem) pre).
  { apply (@reads_survive_all sample_svmem); [reflexivity|].
    repeat constructor; vm_compute; intuition discriminate. }
  split; [exact Hpre|].
  exact (@aggregate_error_propagates sample_vmem pre rest p OSError Hpre
           eq_refl eq_refl).
Defined.

(** X11. The memory total is not guarded. When the provider reports a total
    of zero, the aggregator raises [ZeroDivisionError] as soon as one handle
    answers both reads, and returns (0.0, 0.0) only when every handle has
    vanished. *)
Theorem zero_memory_total_raises :
  forall (vm : svmem) (procs : list Process),
    vm_total vm = 0%Z ->
    forallb (fun p => survives p || gone p) procs = true ->
    _aggregate_process_metrics (Ok vm) procs =
    if existsb survives procs then Raise ZeroDivisionError else Ok (f0, f0).
Proof.
  intros vm procs Hz H.
  assert (Hloop : forall total_cpu total_memory,
             aggregate_loop (Ok vm) procs total_cpu total_memory =
             if existsb survives procs then Raise ZeroDivisionError
             else Ok (total_cpu, total_memory)).
  { induction procs as [|p procs IH]; intros total_cpu total_memory;
      [reflexivity|].
    cbn [forallb] in H. apply andb_true_iff in H. destruct H as [Hp H].
    cbn [aggregate_loop existsb].
    unfold survives, gone in Hp. unfold survives at 1, read_process.
    destruct (proc_cpu_percent p) as [cpu|e]; cbn [bind].
    - destruct (proc_memory_info_rss p) as [rss|e]; cbn [bind].
      + rewrite Hz. reflexivity.
      + cbn [orb] in Hp. rewrite Hp. now apply IH.
    - cbn [orb] in Hp. rewrite Hp. now apply IH. }
  destruct procs as [|p procs]; [reflexivity|].
  unfold _aggregate_process_metrics. apply Hloop.
Qed.

Lemma zero_memory_total_raises_witness :
  let vm := {| vm_total := 0; vm_percent := float_of_int 40 |} in
  vm_total vm = 0%Z /\
  forallb (fun p => survives p || gone p) sample_procs = true /\
  _aggregate_process_metrics (Ok vm) sample_procs = Raise ZeroDivisionError.
Proof.
  intros vm. split; [reflexivity|]. split; [reflexivity|].
  exact (@zero_memory_total_raises vm sample_procs eq_refl eq_refl).
Defined.

(** ** Progress reports *)

Lemma progress_from_snoc (snaps : list dict) (d : dict) :
  forall n,
    progress_from n (snaps ++ [d]) =
    progress_from n snaps ++
    (if (S (n + List.length snaps) mod 10 =? 0)%nat
     then [MsgProgress (S (n + List.length snaps))
                       (dict_get "total_system_cpu_percent" d)]
     else []).
Proof.
  induction snaps as [|x snaps IH]; intros n; cbn [app progress_from List.length].
  - rewrite Nat.add_0_r, app_nil_r. reflexivity.
  - rewrite IH, <- app_assoc.
    replace (S n + List.length snaps) with (n + S (List.length snaps)) by lia.
    reflexivity.
Qed.

Lemma progress_from_in (snaps : list dict) (msg : Msg) :
  forall n,
    In msg (progress_from n snaps) ->
    exists i d,
      nth_error snaps i = Some d /\ (S (n + i) mod 10 = 0)%nat /\
      msg = MsgProgress (S (n + i)) (dict_get "total_system_cpu_percent" d).
Proof.
  induction snaps as [|x snaps IH]; intros n; cbn [progress_from];
    [contradiction|].
  intros H. apply in_app_or in H. destruct H as [H|H].
  - destruct (Nat.eqb_spec (S n mod 10) 0) as [E|E]; [|contradiction].
    destruct H as [<-|[]]. exists 0, x. rewrite Nat.add_0_r. auto.
  - destruct (IH _ H) as (i & d & Hi & Hm & ->).
    exists (S i), d. replace (n + S i) with (S n + i) by lia. auto.
Qed.

Lemma succ_div_10 (n : nat) :
  (S n / 10 = n / 10 + (if (S n mod 10 =? 0) then 1 else 0))%nat.
Proof.
  pose proof (Nat.div_mod_eq n 10) as Hn.
  pose proof (Nat.mod_upper_bound n 10 ltac:(lia)) as Hr.
  pose proof (Nat.div_mod_eq (S n) 10) as Hs.
  pose proof (Nat.mod_upper_bound (S n) 10 ltac:(lia)) as Hsr.
  destruct (Nat.eqb_spec (S n mod 10) 0) as [E|E]; lia.
Qed.

Lemma progress_due_length (snaps : list dict) :
  List.length (progress_due snaps) = (List.length snaps / 10)%nat.
Proof.
  unfold progress_due.
  induction snaps as [|d snaps IH] using rev_ind; [reflexivity|].
  rewrite progress_from_snoc, !length_app, IH. cbn [List.length plus].
  rewrite Nat.add_1_r, succ_div_10.
  destruct (_ =? 0)%nat; reflexivity.
Qed.

Lemma filter_progress_snoc (out : list Msg) (msg : Msg) :
  is_progress msg = false ->
  filter is_progress (out ++ [msg]) = filter is_progress out.
Proof.
  intros H. rewrite filter_app. cbn [filter]. rewrite H. apply app_nil_r.
Qed.

Lemma progress_step (w : World) (m : Machine) :
  progress_invariant m -> progress_invariant (step w m).
Proof.
  destruct m as [s p t path f out].
  unfold progress_invariant, progress_lines, reported.
  cbn [pc self stdout]. intros [Hl Hp].
  destruct p as [| |k|d|d| | | |e]; unfold step;
    cbn [pc self stdout tick output_path fs].
  - cbn. rewrite filter_progress_snoc by reflexivity. auto.
  - destruct (running s); cbn; auto.
  - destruct (collect_step s (tick_world w t) k) as [[k'|d]|e]; cbn; auto.
    unfold unwind. destruct (is_keyboard_interrupt e); cbn; auto.
  - cbn. rewrite removelast_last. split; [assumption|now exists (snapshots s)].
  - destruct Hp as [s' Hs].
    assert (Hdue :
              progress_due (snapshots s) =
              progress_due s' ++
              (if (List.length (snapshots s) mod 10 =? 0)%nat
               then [MsgProgress (List.length (snapshots s))
                       (dict_get "total_system_cpu_percent" d)]
               else [])).
    { rewrite Hs. unfold progress_due.
      rewrite progress_from_snoc, length_app.
      cbn [List.length plus]. now rewrite Nat.add_1_r. }
    rewrite Hs, removelast_last in Hl.
    destruct (List.length (snapshots s) mod 10 =? 0)%nat;
      cbn [set_pc print stdout pc self].
    + rewrite filter_app, Hl, Hdue. cbn [filter is_progress]. auto.
    + rewrite Hl, Hdue, app_nil_r. auto.
  - destruct (time_sleep (interval s)) as [[]|e]; cbn; auto.
    unfold unwind. destruct (is_keyboard_interrupt e); cbn; auto.
  - unfold flush; cbn. destruct (snapshots s) eqn:Es; cbn; rewrite ?Es.
    + rewrite filter_progress_snoc by reflexivity. auto.
    + rewrite !filter_progress_snoc by reflexivity. auto.
  - auto.
  - auto.
Qed.

Lemma progress_signal (m : Machine) :
  progress_invariant m -> progress_invariant (deliver_signal m).
Proof.
  destruct m as [s p t path f out].
  unfold progress_invariant, progress_lines, reported, deliver_signal,
    terminated. cbn.
  intros [Hl Hp].
  destruct p; cbn; rewrite ?filter_progress_snoc by reflexivity; auto.
Qed.

Lemma progress_run (w : World) (evs : list event) :
  forall m, progress_invariant m -> progress_invariant (run_events w evs m).
Proof.
  induction evs as [|ev evs IH]; intros m H; [exact H|].
  rewrite run_events_cons. apply IH.
  destruct ev; [now apply progress_step|now apply progress_signal].
Qed.

Lemma progress_main (args : Args) (w : World) (fs0 : FileSystem) :
  progress_invariant (main args w fs0).
Proof.
  unfold progress_invariant, progress_lines, reported, main. cbn.
  destruct (prime_cpu_percent w); auto.
Qed.

Lemma nth_error_removelast {A : Type} (l : list A) (i : nat) (x : A) :
  nth_error (removelast l) i = Some x -> nth_error l i = Some x.
Proof.
  destruct l as [|a l] using rev_ind; [auto|].
  rewrite removelast_last. intros H.
  rewrite nth_error_app1; [assumption|].
  apply nth_error_Some. congruence.
Qed.

Lemma reported_nth (m : Machine) (i : nat) (d : dict) :
  nth_error (reported m) i = Some d ->
  nth_error (snapshots (self m)) i = Some d.
Proof.
  unfold reported. destruct (pc m); auto. apply nth_error_removelast.
Qed.

(** X12. In every run the progress lines printed are exactly one for every
    tenth snapshot buffered, in order and never otherwise: their number is
    the tenth of the session length, and each shows a count that is a
    multiple of ten together with the system CPU reading the provider gave
    in the tick of that count; the lookup of the reading never misses. *)
Theorem progress_every_tenth_sample :
  forall (args : Args) (w : World) (fs0 : FileSystem) (evs : list event),
    let m := run_events w evs (main args w fs0) in
    progress_lines m = progress_due (reported m) /\
    List.length (progress_lines m) = (List.length (reported m) / 10)%nat /\
    (forall msg,
        In msg (stdout m) -> is_progress msg = true ->
        exists n c,
          msg = MsgProgress (S n) (Some (VFloat c)) /\
          (S n mod 10 = 0)%nat /\
          S n <= List.length (snapshots (self m)) /\
          cpu_percent (tick_world w n) = Ok c).
Proof.
  intros args w fs0 evs m.
  destruct (@progress_run w evs _ (progress_main args w fs0)) as [Hl _].
  fold m in Hl.
  split; [exact Hl|]. split; [rewrite Hl; apply progress_due_length|].
  intros msg Hin Hp.
  assert (Hin' : In msg (progress_lines m))
    by (apply filter_In; auto).
  rewrite Hl in Hin'. apply progress_from_in in Hin'.
  destruct Hin' as (i & d & Hi & Hmod & ->). cbn [plus] in *.
  apply reported_nth in Hi.
  pose proof (reachable_invariant args w fs0 evs) as Hinv. fold m in Hinv.
  pose proof (inv_built Hinv _ Hi) as Hd.
  apply collect_snapshot_shape in Hd.
  destruct Hd as (cpu & vm & net & a & b & Hcpu & _ & _ & ->).
  exists i, cpu. repeat split; auto.
  apply nth_error_Some. congruence.
Qed.

Lemma progress_every_tenth_sample_witness :
  let args := sample_args f2 in
  let m := run_events sample_world (repeat Step (1 + 10 * TICK_STEPS))
                      (main args sample_world []) in
  progress_lines m = [MsgProgress 10 (Some (VFloat (float_of_int 12)))] /\
  progress_lines m = progress_due (reported m) /\
  List.length (progress_lines m) = (List.length (reported m) / 10)%nat.
Proof.
  intros args m. split; [vm_compute; reflexivity|].
  destruct (@progress_every_tenth_sample args sample_world []
              (repeat Step (1 + 10 * TICK_STEPS))) as (H1 & H2 & _).
  split; [exact H1|exact H2].
Defined.

(** ** The file of any run *)

(** X13. Whichever way [run] comes to return (flag lowered by a signal, or
    [KeyboardInterrupt] caught), a file it has written is complete: the
    nine columns, one row for each tick from the first on with none skipped
    or repeated, as many rows as ticks completed or one more, and in row
    [i] the provider's answers of tick [i] with no cell left empty. *)
Theorem written_file_is_complete :
  forall (args : Args) (w : World) (fs0 : FileSystem) (evs : list event),
    let m := run_events w evs (main args w fs0) in
    pc m = Returned ->
    snapshots (self m) <> [] ->
    exists f,
      read_file (output args) (fs m) = Some f /\
      csv_header f = COLUMNS /\
      tick m <= List.length (csv_rows f) <= S (tick m) /\
      (forall i, i < List.length (csv_rows f) ->
         exists cpu vm net a b,
           cpu_percent (tick_world w i) = Ok cpu /\
           virtual_memory (tick_world w i) = Ok vm /\
           net_io_counters (tick_world w i) = Ok net /\
           nth_error (csv_rows f) i =
           Some (row_of_tick (tick_world w i) cpu vm net a b)).
Proof.
  intros args w fs0 evs m Hpc Hne.
  pose proof (reachable_invariant args w fs0 evs) as Hinv. fold m in Hinv.
  destruct (@returned_file args w fs0 m _ Hinv Hpc eq_refl) as [_ Hf].
  destruct (Hf Hne) as [_ Hread].
  assert (Hkeys : Forall (fun d => keys d = COLUMNS) (snapshots (self m))).
  { apply Forall_forall. intros d Hd. apply In_nth_error in Hd.
    destruct Hd as [i Hi]. pose proof (inv_built Hinv _ Hi) as Hd.
    now apply collect_snapshot_keys in Hd. }
  exists (persisted (snapshots (self m))).
  split; [exact Hread|].
  rewrite (persisted_uniform Hne Hkeys). cbn [csv_header csv_rows].
  split; [reflexivity|]. rewrite length_map.
  split.
  - pose proof (inv_count Hinv) as Hc. now rewrite Hpc in Hc.
  - intros i Hi.
    destruct (nth_error (snapshots (self m)) i) as [d|] eqn:Ed;
      [|apply nth_error_None in Ed; lia].
    pose proof (inv_built Hinv _ Ed) as Hd.
    apply collect_snapshot_shape in Hd.
    destruct Hd as (cpu & vm & net & a & b & Hcpu & Hvm & Hnet & ->).
    exists cpu, vm, net, a, b. repeat split; auto.
    rewrite nth_error_map, Ed. reflexivity.
Qed.

Lemma written_file_is_complete_witness :
  let args := sample_args f2 in
  let w := interrupted_world in
  let evs := repeat Step (1 + 4 * TICK_STEPS + 4) in
  let m := run_events w evs (main args w []) in
  (pc m = Returned /\ snapshots (self m) <> []) /\
  exists f,
    read_file (output args) (fs m) = Some f /\
    csv_header f = COLUMNS /\
    tick m <= List.length (csv_rows f) <= S (tick m) /\
    (forall i, i < List.length (csv_rows f) ->
       exists cpu vm net a b,
         cpu_percent (tick_world w i) = Ok cpu /\
         virtual_memory (tick_world w i) = Ok vm /\
         net_io_counters (tick_world w i) = Ok net /\
         nth_error (csv_rows f) i =
         Some (row_of_tick (tick_world w i) cpu vm net a b)).
Proof.
  intros args w evs m.
  assert (H1 : pc m = Returned) by (vm_compute; reflexivity).
  assert (H2 : snapshots (self m) <> []) by (vm_compute; discriminate).
  split; [split; assumption|].
  exact (@written_file_is_complete args w [] evs H1 H2).
Defined.

(** ** Floats: the magnitude of a sum *)

Lemma Zdigits2_lt_pow2 (a k : Z) :
  (0 < a)%Z -> (Zdigits2 a <= k)%Z -> (a < 2 ^ k)%Z.
Proof.
  intros Ha Hd. rewrite Zdigits2_log2 in Hd by assumption.
  pose proof (Z.log2_spec a Ha) as [_ Hlt].
  pose proof (Z.log2_nonneg a).
  assert (2 ^ Z.succ (Z.log2 a) <= 2 ^ k)%Z
    by (apply Z.pow_le_mono_r; lia).
  lia.
Qed.

Lemma iter_xO_digits (m d : positive) :
  Zdigits2 (Zpos (Pos.iter xO m d)) = (Zdigits2 (Zpos m) + Zpos d)%Z.
Proof.
  induction d as [|d IH] using Pos.peano_ind.
  - cbn [Pos.iter Zdigits2 digits2_pos]. lia.
  - rewrite Pos.iter_succ. cbn [Zdigits2 digits2_pos] in *. lia.
Qed.

(** Aligning a mantissa keeps the magnitude and never raises the
    exponent. *)
Lemma shl_align_magnitude (m : positive) (e e' : Z) :
  (snd (shl_align m e e') <= e)%Z /\
  (Z.min e e' <= snd (shl_align m e e'))%Z /\
  (Zdigits2 (Zpos (fst (shl_align m e e'))) + snd (shl_align m e e')
   = Zdigits2 (Zpos m) + e)%Z.
Proof.
  unfold shl_align. destruct (e' - e)%Z as [|d|d] eqn:E; cbn [fst snd];
    try (repeat split; lia).
  rewrite iter_xO_digits. repeat split; lia.
Qed.

Lemma small_nonneg_mono (K K' : Z) (x : float) :
  (K <= K')%Z -> small_nonneg K x -> small_nonneg K' x.
Proof.
  intros HK. destruct x as [s|s| |s m e]; cbn; auto.
  intros (Hs & Hd & He). repeat split; auto; lia.
Qed.

(** The sum of two non-negative floats below [2^K] is a non-negative float
    below [2^(K+2)]: no overflow while [K + 2] stays inside the exponent
    range. *)
Lemma fadd_small (K : Z) (x y : float) :
  (-1075 <= K <= 1021)%Z ->
  small_nonneg K x -> small_nonneg K y -> small_nonneg (K + 2) (fadd x y).
Proof.
  intros HK Hx Hy.
  destruct x as [sx|sx| |sx mx ex]; try contradiction;
    destruct y as [sy|sy| |sy my ey]; try contradiction.
  - cbn in Hx, Hy. subst. reflexivity.
  - cbn in Hx. subst. cbn [fadd SFadd].
    apply (@small_nonneg_mono K); [lia|exact Hy].
  - cbn in Hy. subst. cbn [fadd SFadd].
    apply (@small_nonneg_mono K); [lia|exact Hx].
  - destruct Hx as (-> & Hdx & Hex). destruct Hy as (-> & Hdy & Hey).
    unfold fadd, SFadd, cond_Zopp.
    set (ez := Z.min ex ey).
    destruct (@shl_align_magnitude mx ex ez) as (Hx1 & Hx2 & Hx3).
    destruct (@shl_align_magnitude my ey ez) as (Hy1 & Hy2 & Hy3).
    set (a := fst (shl_align mx ex ez)) in *.
    set (b := fst (shl_align my ey ez)) in *.
    assert (Hxe : snd (shl_align mx ex ez) = ez)
      by (unfold shl_align, ez in *;
          destruct (Z.min ex ey - ex)%Z eqn:E; cbn [snd] in *; lia).
    assert (Hye : snd (shl_align my ey ez) = ez)
      by (unfold shl_align, ez in *;
          destruct (Z.min ex ey - ey)%Z eqn:E; cbn [snd] in *; lia).
    rewrite Hxe in *. rewrite Hye in *.
    change (Zpos a + Zpos b)%Z with (Zpos (a + b)).
    cbn [binary_normalize]. unfold binary_round.
    destruct (@shl_align_magnitude (a + b) ez
                (fexp prec emax (Zpos (digits2_pos (a + b)) + ez)))
      as (Hs1 & _ & Hs3).
    destruct (shl_align (a + b) ez _) as [mz ez']. cbn [fst snd] in *.
    assert (Hsum : (Zdigits2 (Zpos (a + b)) + ez <= K + 1)%Z).
    { pose proof (Zdigits2_nonneg (Zpos a)).
      assert (Hda : (1 <= Zdigits2 (Zpos a))%Z)
        by (cbn [Zdigits2]; lia).
      assert (Ha : (Zpos a < 2 ^ (K - ez))%Z)
        by (apply Zdigits2_lt_pow2; lia).
      assert (Hb : (Zpos b < 2 ^ (K - ez))%Z)
        by (apply Zdigits2_lt_pow2; lia).
      assert (Hab : (0 <= Zpos (a + b) < 2 ^ (K - ez + 1))%Z).
      { rewrite Z.pow_add_r by lia. change (2 ^ 1)%Z with 2%Z.
        rewrite Pos2Z.inj_add. lia. }
      pose proof (@Zdigits2_below_pow2 _ _ Hab ltac:(lia)). lia. }
    replace (K + 2)%Z with ((K + 1) + 1)%Z by lia.
    apply binary_round_aux_small; unfold emax, prec in *; lia.
Qed.

(** ** The aggregator inside the float range *)

Lemma reads_bounded_survives (K : Z) (vm : svmem) (p : Process) :
  (0 < vm_total vm)%Z -> (73 <= K)%Z -> reads_bounded K p ->
  match read_process (Ok vm) p with
  | Ok (cpu, mem) => small_nonneg K cpu /\ small_nonneg K mem
  | Raise e => is_process_error e = true
  end.
Proof.
  intros Ht HK. unfold reads_bounded, read_process.
  destruct (proc_cpu_percent p) as [cpu|e]; cbn [bind]; [|auto].
  destruct (proc_memory_info_rss p) as [rss|e]; cbn [bind]; [|auto].
  intros [Hcpu Hrss].
  destruct (@int_truediv_small rss (vm_total vm) Hrss Ht) as (x & -> & Hs).
  cbn [bind]. split; [assumption|].
  apply (@small_nonneg_mono 73); [assumption|now apply fmul_100_small].
Qed.

Lemma reads_bounded_mono (K K' : Z) (p : Process) :
  (K <= K')%Z -> reads_bounded K p -> reads_bounded K' p.
Proof.
  intros HK. unfold reads_bounded.
  destruct (proc_cpu_percent p) as [cpu|e]; [|auto].
  destruct (proc_memory_info_rss p) as [rss|e]; [|auto].
  intros [Hc Hr]. split; [|assumption]. now apply (@small_nonneg_mono K).
Qed.

Lemma aggregate_loop_small (vm : svmem) (procs : list Process) :
  (0 < vm_total vm)%Z ->
  forall (K : Z) (total_cpu total_memory : float),
    (73 <= K)%Z -> (K + 2 * Z.of_nat (List.length procs) <= 1023)%Z ->
    Forall (reads_bounded K) procs ->
    small_nonneg K total_cpu -> small_nonneg K total_memory ->
    exists cpu mem,
      aggregate_loop (Ok vm) procs total_cpu total_memory = Ok (cpu, mem) /\
      small_nonneg (K + 2 * Z.of_nat (List.length procs)) cpu /\
      small_nonneg (K + 2 * Z.of_nat (List.length procs)) mem.
Proof.
  intros Ht. induction procs as [|p procs IH];
    intros K total_cpu total_memory HK Hn Hall Hc Hm.
  - exists total_cpu, total_memory. cbn. rewrite Z.add_0_r. auto.
  - inversion Hall as [|? ? Hp Hall']; subst.
    cbn [List.length aggregate_loop] in *.
    replace (K + 2 * Z.of_nat (S (List.length procs)))%Z
      with ((K + 2) + 2 * Z.of_nat (List.length procs))%Z by lia.
    assert (Hall2 : Forall (reads_bounded (K + 2)) procs).
    { eapply Forall_impl; [|exact Hall'].
      intros q. apply reads_bounded_mono. lia. }
    pose proof (@reads_bounded_survives K vm p Ht HK Hp) as Hr.
    destruct (read_process (Ok vm) p) as [[cpu mem]|e].
    + destruct Hr as [Hcpu Hmem].
      apply IH; try lia; try assumption; apply fadd_small; auto; lia.
    + rewrite Hr.
      apply IH; try lia; try assumption;
        apply (@small_nonneg_mono K); auto; lia.
Qed.

(** X14. Inside the float range the sums are finite. With a positive memory
    total, every CPU reading finite, non-negative and below [2^K], and few
    enough handles that [K + 2 n] stays within the binary64 exponent range
    (400 handles with readings below [2^200], say), the aggregator raises
    nothing and both sums are finite and not negative: the running sums
    cannot overflow. *)
Theorem bounded_readings_sum_finite :
  forall (vm : svmem) (procs : list Process) (K : Z),
    (0 < vm_total vm)%Z ->
    (73 <= K)%Z ->
    (K + 2 * Z.of_nat (List.length procs) <= 1023)%Z ->
    Forall (reads_bounded K) procs ->
    exists cpu mem,
      _aggregate_process_metrics (Ok vm) procs = Ok (cpu, mem) /\
      is_finite cpu = true /\ is_nonneg cpu = true /\
      is_finite mem = true /\ is_nonneg mem = true.
Proof.
  intros vm procs K Ht HK Hn Hall.
  assert (H0 : small_nonneg K f0) by reflexivity.
  destruct (@aggregate_loop_small vm procs Ht K f0 f0 HK Hn Hall H0 H0)
    as (cpu & mem & Hloop & Hc & Hm).
  exists cpu, mem.
  destruct (@small_nonneg_good _ _ Hc) as [Hc1 Hc2].
  destruct (@small_nonneg_good _ _ Hm) as [Hm1 Hm2].
  repeat split; try assumption.
  destruct procs as [|p procs]; [|exact Hloop].
  cbn in Hloop. exact Hloop.
Qed.

Lemma sample_procs_bounded : Forall (reads_bounded 200) sample_procs.
Proof. repeat constructor; vm_compute; intuition discriminate. Qed.

Lemma bounded_readings_sum_finite_witness :
  ((0 < vm_total sample_svmem)%Z /\ (73 <= 200)%Z /\
   (200 + 2 * Z.of_nat (List.length sample_procs) <= 1023)%Z /\
   Forall (reads_bounded 200) sample_procs) /\
  exists cpu mem,
    _aggregate_process_metrics (Ok sample_svmem) sample_procs = Ok (cpu, mem) /\
    is_finite cpu = true /\ is_nonneg cpu = true /\
    is_finite mem = true /\ is_nonneg mem = true.
Proof.
  assert (H1 : (0 < vm_total sample_svmem)%Z) by reflexivity.
  assert (H2 : (73 <= 200)%Z) by lia.
  assert (H3 : (200 + 2 * Z.of_nat (List.length sample_procs) <= 1023)%Z)
    by (cbn; lia).
  split; [repeat split; try assumption; exact sample_procs_bounded|].
  exact (@bounded_readings_sum_finite sample_svmem sample_procs 200 H1 H2 H3
           sample_procs_bounded).
Defined.
